(** * Process-mining dashboard: event-log analytics

    A shallow embedding of the computations of [dashboard.py]: the trace
    builder (the pm4py calls that clean the data frame and turn it into an
    event log), the case-duration metrics, the activity frequency and timing
    table, the variant table and variant filter, and the bottleneck table.

    Conventions.
    - A timestamp is an integer number of nanoseconds since the epoch, the
      way pandas stores it; [total_seconds] turns a difference into seconds.
    - Python floats are idealised as exact rationals ([Q]); [round2] is
      Python's [round(x, 2)] (round half to even) on exact values.
    - A Python dict whose iteration order is observed is an association list
      in insertion order; a dict that is only looked up is a [gmap].
    - A [KeyError] is [None] in the option monad.
    - The bodies of the pm4py and pandas functions the dashboard calls are
      not part of the repository; each is a definition whose comment says
      so. *)

From Stdlib Require Import QArith Qround Qminmax Qabs Lqa.
From Stdlib Require OrderedTypeEx.
From stdpp Require Import gmap strings list sorting.

Set Warnings "-clear-no-such-hyp".

Open Scope string_scope.
Open Scope list_scope.
Open Scope nat_scope.
Open Scope stdpp_scope.

(** ** Stable sorting

    Python's [sorted] and the pandas [sort_values] used by the dashboard are
    modelled by one stable insertion sort over a boolean order: an element is
    placed in front of the first element it is [leb] to, so elements with
    equal keys keep their original relative order. *)

Fixpoint insert_sorted {A : Type} (leb : A → A → bool) (x : A) (l : list A) : list A :=
  match l with
  | [] => [x]
  | y :: l' => if leb x y then x :: y :: l' else y :: insert_sorted leb x l'
  end.

Fixpoint stable_sort {A : Type} (leb : A → A → bool) (l : list A) : list A :=
  match l with
  | [] => []
  | x :: l' => insert_sorted leb x (stable_sort leb l')
  end.

(** ** Data model *)

(** Nanoseconds since the epoch. *)
Abbreviation Timestamp := Z.

(** [Timedelta.total_seconds()]. *)
Definition total_seconds (delta : Z) : Q := Qred (delta # 1000000000).

(** A pm4py event, a dict read at two keys: ['concept:name'], which every
    event of the log carries, and ['time:timestamp'], whose presence the
    dashboard tests ([None] when the key is absent). *)
Record Event : Type := {
  concept_name : string;
  time_timestamp : option Timestamp
}.

(** A pm4py trace: the case identifier (a trace attribute) and its events. *)
Record Trace : Type := {
  case_name : string;
  events : list Event
}.

Abbreviation EventLog := (list Trace).

(** The timestamp of an event that has one. *)
Definition ts_of (e : Event) : Timestamp := default 0%Z (time_timestamp e).

(** [sum(xs)] and [sum(xs) / len(xs)] on exact rationals; the program adds
    binary64 numbers, whose sum depends on the order of the additions in
    the last digits. *)
Definition Qsum (xs : list Q) : Q := foldr Qplus 0%Q xs.

Definition mean (xs : list Q) : Q := (Qsum xs / inject_Z (Z.of_nat (length xs)))%Q.

(** [min(xs)] and [max(xs)] of a non-empty list; the dashboard guards every
    call, so the value at [[]] is never used. *)
Definition Qmin_list (xs : list Q) : Q :=
  match xs with
  | [] => 0%Q
  | x :: xs' => foldl Qmin x xs'
  end.

Definition Qmax_list (xs : list Q) : Q :=
  match xs with
  | [] => 0%Q
  | x :: xs' => foldl Qmax x xs'
  end.

(** Rounding to the nearest integer, ties to the even neighbour. *)
Definition round_half_even (q : Q) : Z :=
  let f := Qfloor q in
  match (q - inject_Z f ?= 1 # 2)%Q with
  | Lt => f
  | Gt => (f + 1)%Z
  | Eq => if Z.even f then f else (f + 1)%Z
  end.

(** Python's [round(x, 2)] on exact rationals: the nearest number with two
    decimals, a value halfway between two of them going to the even one.
    Python rounds the binary64 value of [x], which is seldom exactly
    halfway, so at a decimal tie such as 14.375 the program can show the
    other neighbour. *)
Definition round2 (q : Q) : Q := Qred (round_half_even (q * 100) # 100).

(** A [for] loop whose body may raise. *)
Fixpoint for_each {S A : Type} (body : S → A → option S) (xs : list A) (s : S)
  : option S :=
  match xs with
  | [] => Some s
  | x :: xs' => s' ← body s x; for_each body xs' s'
  end.

(** A row of the data frame after the column renaming: case identifier,
    activity and parsed timestamp. *)
Record Row : Type := {
  row_case : string;
  row_activity : string;
  row_timestamp : Timestamp
}.

Abbreviation DataFrame := (list Row).

Definition row_leb (r s : Row) : bool :=
  match String.compare (row_case r) (row_case s) with
  | Lt => true
  | Gt => false
  | Eq => (row_timestamp r <=? row_timestamp s)%Z
  end.

(** Number of rows of a case. *)
Definition case_size (df : DataFrame) (c : string) : nat :=
  length (filter (λ r, row_case r = c) df).

(** The variant of a trace: the tuple of its activity labels. *)
Definition variant_of (trace : Trace) : list string := concept_name <$> events trace.

(** ** Library functions

    The pm4py and pandas functions the dashboard calls. Their bodies are
    library code; each is given the behaviour the library documents. *)

(** [DataFrame.sort_values(column, ascending=False)] of pandas, called with a
    single column: the rows come out in non-increasing order of that column
    and no other column is looked at. Pandas leaves the order of rows with
    equal values to the sorting algorithm; here they keep their original
    relative order. On a frame without the column (the frame built from an
    empty list of rows) pandas raises [KeyError]. *)
Definition sort_values_desc {A : Type} (column : A → Q) (rows : list A) : option (list A) :=
  match rows with
  | [] => None
  | _ => Some (stable_sort (λ r s, Qle_bool (column s) (column r)) rows)
  end.

(** [DataFrame.head(n)]. *)
Definition df_head {A : Type} (n : nat) (rows : list A) : list A := take n rows.

Module pm4py.

(** Modelled from the spec: the body of [pm4py.format_dataframe] is library
    code. Within each case the records are sorted by timestamp ascending,
    stable with respect to the original order for equal timestamps (the
    library sorts the frame by case identifier, timestamp and row index). *)
Definition format_dataframe (df : DataFrame) : DataFrame := stable_sort row_leb df.

(** Modelled from the spec: the body of [pm4py.filter_case_size] is library
    code. It drops any case whose number of events is below [min_size], and,
    when [max_size] is given, above [max_size]. *)
Definition filter_case_size (df : DataFrame) (min_size : nat) (max_size : option nat)
  : DataFrame :=
  let df := filter (λ r, (min_size ≤ case_size df (row_case r))%nat) df in
  match max_size with
  | None => df
  | Some m => filter (λ r, (case_size df (row_case r) ≤ m)%nat) df
  end.

Fixpoint count_value (a : string) (counts : list (string * nat)) : list (string * nat) :=
  match counts with
  | [] => [(a, 1%nat)]
  | (b, n) :: rest =>
      if decide (b = a) then (b, S n) :: rest else (b, n) :: count_value a rest
  end.

(** Modelled from the spec: the body of [pm4py.get_event_attribute_values]
    is library code. At attribute ['concept:name'] it returns a dict from
    each activity label to its number of occurrences across all traces; the
    library fills the dict while it walks the traces and their events, so
    the keys are in order of first occurrence. *)
Definition get_event_attribute_values (log : EventLog) : list (string * nat) :=
  foldl (λ counts tr,
           foldl (λ counts e, count_value (concept_name e) counts) counts (events tr))
        [] log.

Fixpoint add_to_variant (v : list string) (trace : Trace)
    (variants : list (list string * list Trace)) : list (list string * list Trace) :=
  match variants with
  | [] => [(v, [trace])]
  | (w, traces) :: rest =>
      if decide (w = v) then (w, traces ++ [trace]) :: rest
      else (w, traces) :: add_to_variant v trace rest
  end.

(** Modelled from the spec: the body of [pm4py.get_variants_as_tuples] is
    library code. On an event log it returns a dict from each variant (the
    ordered sequence of the activity labels of a trace) to the list of the
    traces that share it. *)
Definition get_variants_as_tuples (log : EventLog) : list (list string * list Trace) :=
  foldl (λ variants tr, add_to_variant (variant_of tr) tr variants) [] log.

(** Modelled from the spec: the body of [pm4py.filter_variants] is library
    code. It returns the sub-log of the traces whose variant is one of the
    given variants. *)
Definition filter_variants (log : EventLog) (variants : list (list string)) : EventLog :=
  filter (λ tr, variant_of tr ∈ variants) log.

End pm4py.

Module log_converter.

Definition row_event (r : Row) : Event :=
  {| concept_name := row_activity r; time_timestamp := Some (row_timestamp r) |}.

Fixpoint append_event (c : string) (e : Event) (log : EventLog) : EventLog :=
  match log with
  | [] => [{| case_name := c; events := [e] |}]
  | tr :: log' =>
      if decide (case_name tr = c)
      then {| case_name := c; events := events tr ++ [e] |} :: log'
      else tr :: append_event c e log'
  end.

(** Modelled from the spec: the body of [log_converter.apply] (variant
    [TO_EVENT_LOG]) is library code. It groups the rows by case identifier:
    one trace per case, in order of first appearance, whose events are the
    rows of the case in frame order. *)
Definition to_event_log (df : DataFrame) : EventLog :=
  foldl (λ log r, append_event (row_case r) (row_event r) log) [] df.

End log_converter.

Module case_statistics.

Definition case_duration (trace : Trace) : option Q :=
  first ← head (events trace);
  final ← last (events trace);
  s ← time_timestamp first;
  e ← time_timestamp final;
  Some (total_seconds (e - s)).

(** Modelled from the spec: the body of
    [case_statistics.get_all_case_durations] is library code. The duration
    of a trace is the timestamp of its last event minus that of its first,
    in seconds; the library returns the durations of the non-empty traces
    in ascending order. *)
Definition get_all_case_durations (log : EventLog) : option (list Q) :=
  ds ← mapM case_duration (filter (λ tr, events tr ≠ []) log);
  Some (stable_sort Qle_bool ds).

End case_statistics.

(** ** Trace builder (dashboard.py, lines 44-53) *)

(** Lines 44-53: format, keep the cases with at least 2 events, convert. *)
Definition trace_builder (df : DataFrame) : EventLog :=
  let df := pm4py.format_dataframe df in
  let df := pm4py.filter_case_size df 2 None in
  log_converter.to_event_log df.

(** ** Case durations (dashboard.py, lines 70-76) *)

(** What [st.metric] is given: [f"{h} hours"] or ["N/A"]. *)
Inductive Metric : Type :=
  | Hours (h : Q)
  | NotAvailable.

Record CaseMetrics : Type := {
  avg_case_duration : Metric;
  min_case_duration : Metric;
  max_case_duration : Metric
}.

Definition case_duration_metrics (case_durations : list Q) : CaseMetrics :=
  let avg_duration :=
    match case_durations with
    | [] => 0%Q
    | _ => mean case_durations
    end in
  {| avg_case_duration := Hours (round2 (avg_duration / 3600));
     min_case_duration :=
       match case_durations with
       | [] => NotAvailable
       | _ => Hours (round2 (Qmin_list case_durations / 3600))
       end;
     max_case_duration :=
       match case_durations with
       | [] => NotAvailable
       | _ => Hours (round2 (Qmax_list case_durations / 3600))
       end |}.

Definition case_duration_analyzer (event_log : EventLog) : option CaseMetrics :=
  case_durations ← case_statistics.get_all_case_durations event_log;
  Some (case_duration_metrics case_durations).

(** ** Activity frequency and timing (dashboard.py, lines 84-123) *)

(** The value stored per activity: [{'durations': [...]}]. *)
Record TimingEntry : Type := { durations : list Q }.

(** [sorted(trace, key=lambda x: x['time:timestamp'])]: the key is evaluated
    on every event first (a missing key raises), then the sort is stable. *)
Definition sorted_by_timestamp (trace : list Event) : option (list Event) :=
  _ ← mapM time_timestamp trace;
  Some (stable_sort (λ e f, (ts_of e <=? ts_of f)%Z) trace).

(** The body of the inner loop (lines 96-106); the state is the dictionary
    and [previous_event]. *)
Definition timing_step (st : gmap string TimingEntry * option Event) (event : Event)
  : option (gmap string TimingEntry * option Event) :=
  let '(activity_timing, previous_event) := st in
  let activity := concept_name event in
  let activity_timing :=
    match activity_timing !! activity with
    | None => <[activity := {| durations := [] |}]> activity_timing
    | Some _ => activity_timing
    end in
  activity_timing ←
    match previous_event with
    | Some prev =>
        t ← time_timestamp event;
        p ← time_timestamp prev;
        let duration := total_seconds (t - p) in
        Some (alter (λ e, {| durations := durations e ++ [duration] |})
                activity activity_timing)
    | None => Some activity_timing
    end;
  Some (activity_timing, Some event).

(** The body of the outer loop (lines 90-106). *)
Definition timing_trace (activity_timing : gmap string TimingEntry) (trace : Trace)
  : option (gmap string TimingEntry) :=
  sorted_events ← sorted_by_timestamp (events trace);
  st ← for_each timing_step sorted_events (activity_timing, None);
  Some st.1.

Definition activity_timing (event_log : EventLog) : option (gmap string TimingEntry) :=
  for_each timing_trace event_log ∅.

Record ActivityRow : Type := {
  Activity : string;
  Count : nat;
  Percentage : Q;
  Min_Duration_hours : Q;
  Avg_Duration_hours : Q;
  Max_Duration_hours : Q;
  Sample_Size : nat
}.

Definition count_total (activity_counts : list (string * nat)) : nat :=
  foldr plus 0%nat activity_counts.*2.

Definition Qnat (n : nat) : Q := inject_Z (Z.of_nat n).

(** One iteration of the loop of lines 110-121. *)
Definition activity_row (activity_counts : list (string * nat))
    (activity_timing : gmap string TimingEntry) (item : string * nat)
  : option ActivityRow :=
  let '(activity, count) := item in
  entry ← activity_timing !! activity;
  let durations := durations entry in
  Some {| Activity := activity;
          Count := count;
          Percentage := round2 (Qnat count / Qnat (count_total activity_counts) * 100);
          Min_Duration_hours :=
            match durations with [] => 0%Q | _ => round2 (Qmin_list durations / 3600) end;
          Avg_Duration_hours :=
            match durations with [] => 0%Q | _ => round2 (mean durations / 3600) end;
          Max_Duration_hours :=
            match durations with [] => 0%Q | _ => round2 (Qmax_list durations / 3600) end;
          Sample_Size := length durations |}.

Definition activity_data (activity_counts : list (string * nat))
    (activity_timing : gmap string TimingEntry) : option (list ActivityRow) :=
  mapM (activity_row activity_counts activity_timing) activity_counts.

(** Line 123. *)
Definition activity_df (activity_data : list ActivityRow) : option (list ActivityRow) :=
  sort_values_desc (λ r, Qnat (Count r)) activity_data.

(** Lines 84-123 together. *)
Definition activity_analysis (event_log : EventLog) : option (list ActivityRow) :=
  let activity_counts := pm4py.get_event_attribute_values event_log in
  activity_timing ← activity_timing event_log;
  activity_data ← activity_data activity_counts activity_timing;
  activity_df activity_data.

(** ** Variants (dashboard.py, lines 151-186) *)

(** The body of the loop of lines 156-163. After the filter every event of
    [events] carries a timestamp, so the two reads cannot fail. *)
Definition variant_durations_step (variant_durations : list Q) (trace : Trace) : list Q :=
  let events := filter (λ x, is_Some (time_timestamp x)) (events trace) in
  if decide (1 < length events)%nat then
    match head events, last events with
    | Some first, Some final =>
        let start_time := ts_of first in
        let end_time := ts_of final in
        let duration := total_seconds (end_time - start_time) in
        variant_durations ++ [duration]
    | _, _ => variant_durations
    end
  else variant_durations.

(** [avg_duration] of line 165. *)
Definition variant_avg_duration (traces : list Trace) : Q :=
  let variant_durations := foldl variant_durations_step [] traces in
  match variant_durations with
  | [] => 0%Q
  | _ => mean variant_durations
  end.

Definition arrow : string := " → ".

Record VariantRow : Type := {
  Variant : string;
  Variant_Count : nat;
  Variant_Avg_Duration_hours : Q
}.

Definition variant_stats (variants : list (list string * list Trace)) : list VariantRow :=
  (λ '(variant, traces),
     {| Variant := String.concat arrow variant;
        Variant_Count := length traces;
        Variant_Avg_Duration_hours := round2 (variant_avg_duration traces / 3600) |})
  <$> variants.

(** Line 172. *)
Definition variants_df (variant_stats : list VariantRow) : option (list VariantRow) :=
  sort_values_desc (λ r, Qnat (Variant_Count r)) variant_stats.

(** [str.split(sep)] for a non-empty separator: the string is cut at the
    occurrences of [sep] found from left to right, without overlap. [skip]
    counts the characters of a found separator still to be passed over and
    [acc] is the piece read so far. *)
Fixpoint split_from (sep : string) (skip : nat) (acc : string) (s : string) : list string :=
  match s with
  | EmptyString => [acc]
  | String c s' =>
      match skip with
      | S k => split_from sep k acc s'
      | O =>
          if String.prefix sep s
          then acc :: split_from sep (String.length sep - 1) EmptyString s'
          else split_from sep 0 (acc ++ String c EmptyString)%string s'
      end
  end.

Definition split (sep s : string) : list string := split_from sep 0 EmptyString s.

(** Line 186: the selected entry of the ['Variant'] column is split back
    into a tuple and handed to the filter. *)
Definition filtered_log (event_log : EventLog) (selected_variant : string) : EventLog :=
  pm4py.filter_variants event_log [split arrow selected_variant].

(** ** Bottlenecks (dashboard.py, lines 201-233) *)

(** The values a slot of the performance mapping can hold. *)
Inductive PyValue : Type :=
  | PyInt (n : Z)
  | PyFloat (x : Q)
  | PyBool (b : bool)
  | PyStr (s : string)
  | PyNone.

(** An entry of [mean_times]: a dict of statistics or a bare value. *)
Inductive TimeInfo : Type :=
  | Stats (d : gmap string PyValue)
  | Bare (v : PyValue).

(** [isinstance(v, (int, float))] with the number it stands for; [bool] is
    a subclass of [int]. *)
Definition as_number (v : PyValue) : option Q :=
  match v with
  | PyInt n => Some (inject_Z n)
  | PyFloat x => Some x
  | PyBool b => Some (if b then 1%Q else 0%Q)
  | PyStr _ | PyNone => None
  end.

(** Lines 206-209. *)
Definition avg_time_of (time_info : TimeInfo) : PyValue :=
  match time_info with
  | Stats d => default (PyInt 0) (d !! "mean")
  | Bare v => v
  end.

Record PerfRow : Type := {
  From_ : string;
  To : string;
  Avg_Time_hours : Q
}.

(** The body of the loop of lines 204-217. *)
Definition performance_step (performance_data : list PerfRow)
    (item : (string * string) * TimeInfo) : list PerfRow :=
  let '(key, time_info) := item in
  let avg_time := avg_time_of time_info in
  match as_number avg_time with
  | Some x =>
      if Qlt_le_dec 0 x
      then performance_data ++
             [{| From_ := key.1; To := key.2; Avg_Time_hours := round2 (x / 3600) |}]
      else performance_data
  | None => performance_data
  end.

Definition performance_data (mean_times : list ((string * string) * TimeInfo))
  : list PerfRow :=
  foldl performance_step [] mean_times.

(** What the section shows: the ranked table with its first five rows as
    the headline, or the warning. *)
Inductive Bottlenecks : Type :=
  | Ranked (perf_df : list PerfRow) (headline : list PerfRow)
  | NoValidData.

(** Lines 219-233. *)
Definition bottleneck_analysis (mean_times : list ((string * string) * TimeInfo))
  : option Bottlenecks :=
  let performance_data := performance_data mean_times in
  match performance_data with
  | [] => Some NoValidData
  | _ =>
      perf_df ← sort_values_desc Avg_Time_hours performance_data;
      Some (Ranked perf_df (df_head 5 perf_df))
  end.

(** ** Vocabulary of the statements *)

(** One second, in nanoseconds. *)
Definition second : Z := 1000000000.

(** *** Rounding *)

(** A number with at most two decimals: a whole number of hundredths. *)
Definition two_decimals (q : Q) : Prop := ∃ k : Z, (q == k # 100)%Q.

(** [shown] is [exact] rounded to 2 decimals: a number with two decimals
    that lies no further from [exact] than half a hundredth. Which of its
    two neighbours a value exactly halfway is given is left open. *)
Definition rounded_to_2_decimals (exact shown : Q) : Prop :=
  two_decimals shown ∧ (Qabs (shown - exact) <= 1 # 200)%Q.

(** *** Trace builder *)

(** Every event of the log carries a timestamp. *)
Definition timestamped (log : EventLog) : Prop :=
  Forall (λ tr, Forall (λ e, is_Some (time_timestamp e)) (events tr)) log.

(** Non-decreasing by timestamp, every event carrying one. *)
Definition time_sorted (evs : list Event) : Prop :=
  Forall (λ e, is_Some (time_timestamp e)) evs ∧
  StronglySorted (λ e f, (ts_of e ≤ ts_of f)%Z) evs.

(** The events stored under a case identifier. *)
Fixpoint case_events (log : EventLog) (c : string) : list Event :=
  match log with
  | [] => []
  | tr :: log' => if decide (case_name tr = c) then events tr else case_events log' c
  end.

(** *** Activity frequency and timing *)

(** The events of a trace in time order. *)
Definition in_time_order (evs : list Event) : list Event :=
  stable_sort (λ e f, (ts_of e <=? ts_of f)%Z) evs.

(** For every event after [prev], in order: its activity and the seconds
    elapsed since the event immediately before it. *)
Fixpoint samples_after (prev : Event) (evs : list Event) : list (string * Q) :=
  match evs with
  | [] => []
  | e :: evs' =>
      (concept_name e, total_seconds (ts_of e - ts_of prev)) :: samples_after e evs'
  end.

(** The samples of a trace: one for every event except the first. *)
Definition elapsed_samples (evs : list Event) : list (string * Q) :=
  match evs with
  | [] => []
  | e :: evs' => samples_after e evs'
  end.

(** The duration sample set of an activity over the log. *)
Definition duration_samples (log : EventLog) (a : string) : list Q :=
  (filter (λ s, s.1 = a) (tr ← log; elapsed_samples (in_time_order (events tr)))).*2.

(** The activity labels of the events of the log, with repetitions. *)
Definition log_activities (log : EventLog) : list string :=
  tr ← log; concept_name <$> events tr.

(** The durations stored for an activity, [[]] when it has no entry. *)
Definition stored_durations (m : gmap string TimingEntry) (a : string) : list Q :=
  from_option durations [] (m !! a).

(** The samples the inner loop appends from a given [previous_event]. *)
Definition samples_from (prev : option Event) (evs : list Event) : list (string * Q) :=
  match prev with
  | Some p => samples_after p evs
  | None => elapsed_samples evs
  end.

(** Number of occurrences of a label. *)
Definition occurrences (a : string) (labels : list string) : nat :=
  length (filter (λ b, b = a) labels).

(** The count stored for a label, 0 when it has none. *)
Fixpoint count_of (counts : list (string * nat)) (a : string) : nat :=
  match counts with
  | [] => 0
  | (b, n) :: rest => if decide (b = a) then n else count_of rest a
  end.

(** Lines 84-121: the rows of the activity table before sorting. *)
Definition activity_table (event_log : EventLog) : option (list ActivityRow) :=
  activity_timing ← activity_timing event_log;
  activity_data (pm4py.get_event_attribute_values event_log) activity_timing.

(** Scenario 1 of the specification. *)
Definition scenario1 (t0 : Timestamp) : EventLog :=
  [ {| case_name := "A";
       events := [ {| concept_name := "x"; time_timestamp := Some t0 |};
                   {| concept_name := "y"; time_timestamp := Some (t0 + 60 * second)%Z |} ] |};
    {| case_name := "B";
       events := [ {| concept_name := "x"; time_timestamp := Some t0 |};
                   {| concept_name := "y"; time_timestamp := Some (t0 + 120 * second)%Z |} ] |} ].

(** A one-trace log whose two activities occur once each, the later label
    first. *)
Definition tied_log : EventLog :=
  [ {| case_name := "A";
       events := [ {| concept_name := "b"; time_timestamp := Some 0%Z |};
                   {| concept_name := "a"; time_timestamp := Some second |} ] |} ].

(** *** Variants *)

(** The events of a trace that carry a timestamp. *)
Definition stamped_events (tr : Trace) : list Event :=
  filter (λ x, is_Some (time_timestamp x)) (events tr).

(** A trace counts for the duration of its variant when at least 2 of its
    events carry a timestamp. *)
Definition qualifies (tr : Trace) : Prop := 2 ≤ length (stamped_events tr).

#[global] Instance qualifies_dec tr : Decision (qualifies tr).
Proof. unfold qualifies. apply _. Defined.

(** Last timestamp minus first timestamp, in seconds. *)
Definition trace_span (tr : Trace) : Q :=
  match head (stamped_events tr), last (stamped_events tr) with
  | Some first, Some final => total_seconds (ts_of final - ts_of first)
  | _, _ => 0%Q
  end.



(** A log in which an activity label contains the separator of the
    ['Variant'] column. *)
Definition arrow_trace : Trace :=
  {| case_name := "1";
     events := [ {| concept_name := "a → b"; time_timestamp := Some 0%Z |};
                 {| concept_name := "c"; time_timestamp := Some second |} ] |}.

Definition plain_trace : Trace :=
  {| case_name := "2";
     events := [ {| concept_name := "a"; time_timestamp := Some 0%Z |};
                 {| concept_name := "b"; time_timestamp := Some second |};
                 {| concept_name := "c"; time_timestamp := Some (2 * second)%Z |} ] |}.

Definition arrow_log : EventLog := [arrow_trace; plain_trace].

(** *** Bottlenecks *)

(** The mean time of an entry of the performance mapping when it is a
    number. *)
Definition mean_time (time_info : TimeInfo) : option Q := as_number (avg_time_of time_info).

(** The entry holds a number strictly greater than 0. *)
Definition positive_mean (item : (string * string) * TimeInfo) : Prop :=
  ∃ x, mean_time item.2 = Some x ∧ (0 < x)%Q.

#[global] Instance positive_mean_dec item : Decision (positive_mean item).
Proof.
  unfold positive_mean. destruct (mean_time item.2) as [x|].
  - destruct (Qlt_le_dec 0 x) as [Hlt|Hle].
    + left. by exists x.
    + right. intros (y & [= <-] & Hy). by apply Qle_not_lt in Hle.
  - right. by intros (y & [=] & _).
Defined.

(** The mean time an entry of the mapping states: the value under the key
    mean of a dict of statistics, the value itself otherwise. A dict
    without that key states none. *)
Inductive stated_mean : TimeInfo → PyValue → Prop :=
  | stated_in_stats d v : d !! "mean" = Some v → stated_mean (Stats d) v
  | stated_bare v : stated_mean (Bare v) v.

(** A numeric value strictly greater than 0, with the number of seconds it
    stands for; strings and [None] are not numbers, and Python's [True] is
    the integer 1. *)
Inductive positive_number : PyValue → Q → Prop :=
  | positive_int n : (0 < n)%Z → positive_number (PyInt n) (inject_Z n)
  | positive_float x : (0 < x)%Q → positive_number (PyFloat x) x
  | positive_true : positive_number (PyBool true) 1%Q.

(** The entry states a mean time of [x] seconds, a number greater than 0. *)
Definition valid_mean_time (time_info : TimeInfo) (x : Q) : Prop :=
  ∃ v, stated_mean time_info v ∧ positive_number v x.

(** The entries the specification retains. *)
Definition valid_entry (item : (string * string) * TimeInfo) : Prop :=
  ∃ x, valid_mean_time item.2 x.

#[global] Instance positive_number_dec v : Decision (∃ x, positive_number v x).
Proof.
  destruct v as [n|x|[|]|s|].
  - destruct (decide (0 < n)%Z) as [Hn|Hn].
    + left. exists (inject_Z n). by constructor.
    + right. intros (y & Hy). by inversion Hy.
  - destruct (Qlt_le_dec 0 x) as [Hx|Hx].
    + left. exists x. by constructor.
    + right. intros (y & Hy). inversion Hy; subst. by apply Qle_not_lt in Hx.
  - left. exists 1%Q. constructor.
  - right. intros (y & Hy). inversion Hy.
  - right. intros (y & Hy). inversion Hy.
  - right. intros (y & Hy). inversion Hy.
Defined.

#[global] Instance valid_entry_dec item : Decision (valid_entry item).
Proof.
  unfold valid_entry, valid_mean_time. destruct item as [key [d|v]]; simpl.
  - destruct (d !! "mean") as [v|] eqn:Hd.
    + destruct (decide (∃ x, positive_number v x)) as [Hv|Hv].
      * left. destruct Hv as [x Hx]. exists x, v. split; [by constructor|done].
      * right. intros (x & w & Hs & Hw). inversion Hs; subst.
        apply Hv. exists x. congruence.
    + right. intros (x & w & Hs & Hw). inversion Hs; subst. congruence.
  - destruct (decide (∃ x, positive_number v x)) as [Hv|Hv].
    + left. destruct Hv as [x Hx]. exists x, v. split; [constructor|done].
    + right. intros (x & w & Hs & Hw). inversion Hs; subst. apply Hv. by exists x.
Defined.

(** A mapping whose only entry is a dict of statistics with a mean of 10
    seconds. *)
Definition brief_transition : list ((string * string) * TimeInfo) :=
  [ (("a", "b"), Stats (<["mean" := PyFloat 10]> ∅)) ].

(** The transition of a row of the bottleneck table. *)
Definition transition (r : PerfRow) : string * string := (From_ r, To r).

(** Lexicographic comparison of two transitions. *)
Definition transition_compare (k1 k2 : string * string) : comparison :=
  match String.compare k1.1 k2.1 with
  | Eq => String.compare k1.2 k2.2
  | c => c
  end.

(** Scenario 4 of the specification. *)
Definition scenario4 : list ((string * string) * TimeInfo) :=
  [ (("a", "b"), Bare (PyInt (-5)));
    (("c", "d"), Bare (PyInt 0));
    (("e", "f"), Bare (PyInt 300)) ].

(** Three transitions whose mean times round to the same number of hours. *)
Definition close_times : list ((string * string) * TimeInfo) :=
  [ (("b", "a"), Bare (PyFloat 10));
    (("a", "b"), Bare (PyFloat 10));
    (("c", "d"), Bare (PyFloat 12)) ].


(** *** Further vocabulary *)

(** Number of traces whose first event in time order bears the label. *)
Definition trace_openings (log : EventLog) (a : string) : nat :=
  length (filter (λ tr, concept_name <$> head (in_time_order (events tr)) = Some a) log).

(** The string contains the arrow character of the separator. *)
Fixpoint has_arrow (s : string) : bool :=
  match s with
  | EmptyString => false
  | String _ s' => String.prefix "→" s || has_arrow s'
  end.

(** What can follow a label in a joined string: the end, or a separator. *)
Definition after_label (rest : string) : Prop :=
  rest = EmptyString ∨ ∃ s, rest = (arrow ++ s)%string.


(** Six transitions with mean times of 1 to 6 hours. *)
Definition six_times : list ((string * string) * TimeInfo) :=
  [ (("a", "b"), Bare (PyInt 3600));
    (("b", "c"), Bare (PyInt 21600));
    (("c", "d"), Bare (PyInt 7200));
    (("d", "e"), Stats {[ "mean" := PyFloat 18000 ]});
    (("e", "f"), Bare (PyInt 10800));
    (("f", "g"), Bare (PyInt 14400)) ].

(** A data frame with two cases of 2 rows, stored out of order, and one
    case of a single row. *)
Definition sample_frame : DataFrame :=
  [ {| row_case := "2"; row_activity := "y"; row_timestamp := 5 |};
    {| row_case := "1"; row_activity := "a"; row_timestamp := 9 |};
    {| row_case := "2"; row_activity := "x"; row_timestamp := 3 |};
    {| row_case := "3"; row_activity := "z"; row_timestamp := 1 |};
    {| row_case := "1"; row_activity := "b"; row_timestamp := 9 |} ].
(** * Properties *)

Ltac timestamped_by_computation := repeat constructor; by eexists.

(** ** The stable sort *)

Section StableSort.
Context {A : Type} (leb : A → A → bool).

Lemma insert_sorted_perm x l : insert_sorted leb x l ≡ₚ x :: l.
Proof.
  induction l as [|y l IH]; simpl; [done|].
  destruct (leb x y); [done|].
  rewrite IH. apply Permutation_swap.
Qed.

Lemma stable_sort_perm l : stable_sort leb l ≡ₚ l.
Proof.
  induction l as [|x l IH]; simpl; [done|].
  by rewrite insert_sorted_perm, IH.
Qed.

Lemma insert_sorted_head x l :
  Forall (λ y, leb x y = true) l → insert_sorted leb x l = x :: l.
Proof. destruct 1 as [|y l Hy _]; simpl; [done|]. by rewrite Hy. Qed.

Lemma stable_sort_id l :
  StronglySorted (λ a b, leb a b = true) l → stable_sort leb l = l.
Proof.
  induction 1 as [|x l _ IH Hall]; simpl; [done|].
  rewrite IH. by apply insert_sorted_head.
Qed.

Hypothesis leb_total : ∀ x y, leb x y = false → leb y x = true.
Hypothesis leb_trans : ∀ x y z, leb x y = true → leb y z = true → leb x z = true.

Lemma insert_sorted_sorted x l :
  StronglySorted (λ a b, leb a b = true) l →
  StronglySorted (λ a b, leb a b = true) (insert_sorted leb x l).
Proof.
  induction 1 as [|y l Hs IH Hall]; simpl.
  - repeat constructor.
  - destruct (leb x y) eqn:Hxy.
    + constructor; [by constructor|].
      constructor; [done|].
      eapply Forall_impl; [exact Hall|]. intros z Hz. by eapply leb_trans.
    + constructor; [done|].
      rewrite insert_sorted_perm. constructor; [by apply leb_total|done].
Qed.

Lemma stable_sort_sorted l :
  StronglySorted (λ a b, leb a b = true) (stable_sort leb l).
Proof.
  induction l; simpl; [constructor|by apply insert_sorted_sorted].
Qed.

End StableSort.

Section SortFilter.
Context {A : Type} (leb : A → A → bool) (P : A → Prop) `{!∀ x, Decision (P x)}.
Hypothesis leb_trans : ∀ x y z, leb x y = true → leb y z = true → leb x z = true.

Lemma filter_insert_sorted x l :
  StronglySorted (λ a b, leb a b = true) l →
  filter P (insert_sorted leb x l) =
  if decide (P x) then insert_sorted leb x (filter P l) else filter P l.
Proof.
  induction 1 as [|y l Hs IH Hall]; simpl.
  - rewrite filter_cons. by case_decide.
  - destruct (leb x y) eqn:Hxy.
    + rewrite (filter_cons _ x). case_decide; [|done].
      rewrite insert_sorted_head; [done|].
      apply Forall_forall. intros z [_ Hz]%list_elem_of_filter.
      apply elem_of_cons in Hz as [->|Hz]; [done|].
      eapply leb_trans; [exact Hxy|]. by eapply Forall_forall in Hall.
    + rewrite filter_cons, IH, (filter_cons _ y).
      destruct (decide (P y)), (decide (P x)); simpl; by rewrite ?Hxy.
Qed.

Hypothesis leb_total : ∀ x y, leb x y = false → leb y x = true.

Lemma filter_stable_sort l :
  filter P (stable_sort leb l) = stable_sort leb (filter P l).
Proof.
  induction l as [|x l IH]; simpl; [done|].
  rewrite filter_insert_sorted by (by apply stable_sort_sorted).
  rewrite filter_cons, IH. by case_decide.
Qed.

End SortFilter.

Lemma filter_all {A} (P : A → Prop) `{!∀ x, Decision (P x)} (l : list A) :
  Forall P l → filter P l = l.
Proof.
  induction 1 as [|x l Hx _ IH]; [done|].
  by rewrite filter_cons, decide_True, IH.
Qed.

Lemma filter_none {A} (P : A → Prop) `{!∀ x, Decision (P x)} (l : list A) :
  Forall (λ x, ¬ P x) l → filter P l = [].
Proof.
  induction 1 as [|x l Hx _ IH]; [done|].
  by rewrite filter_cons, decide_False, IH.
Qed.

Lemma StronglySorted_filter_impl {A} (R R' : relation A) (P : A → Prop)
    `{!∀ x, Decision (P x)} (l : list A) :
  (∀ x y, P x → P y → R x y → R' x y) →
  StronglySorted R l → StronglySorted R' (filter P l).
Proof.
  intros HR. induction 1 as [|x l _ IH Hall]; [constructor|].
  rewrite filter_cons. destruct (decide (P x)) as [Hx|]; [|done].
  constructor; [done|].
  apply Forall_forall. intros y [Hy Hin]%list_elem_of_filter.
  apply HR; [done..|]. by eapply Forall_forall in Hall.
Qed.

Lemma Qle_bool_desc_total {A} (f : A → Q) x y :
  Qle_bool (f y) (f x) = false → Qle_bool (f x) (f y) = true.
Proof.
  intros H. apply Qle_bool_iff.
  destruct (Qlt_le_dec (f x) (f y)) as [Hlt|Hle]; [by apply Qlt_le_weak|].
  apply Qle_bool_iff in Hle. congruence.
Qed.

Lemma Qle_bool_desc_trans {A} (f : A → Q) x y z :
  Qle_bool (f y) (f x) = true → Qle_bool (f z) (f y) = true → Qle_bool (f z) (f x) = true.
Proof.
  rewrite !Qle_bool_iff. intros H1 H2. by eapply Qle_trans.
Qed.

Lemma StronglySorted_impl {A} (R R' : relation A) (l : list A) :
  (∀ x y, R x y → R' x y) → StronglySorted R l → StronglySorted R' l.
Proof.
  intros HR. induction 1 as [|x l _ IH Hall]; constructor; [done|].
  eapply Forall_impl; [exact Hall|]. intros y. apply HR.
Qed.

Lemma sort_values_desc_spec {A} (column : A → Q) (rows : list A) :
  match sort_values_desc column rows with
  | Some sorted =>
      sorted ≡ₚ rows ∧ StronglySorted (λ r s, (column s <= column r)%Q) sorted
  | None => rows = []
  end.
Proof.
  destruct rows as [|r rows]; [done|]. unfold sort_values_desc. split.
  - apply stable_sort_perm.
  - eapply StronglySorted_impl;
      [|apply stable_sort_sorted;
        [apply Qle_bool_desc_total|intros x y z; apply Qle_bool_desc_trans]].
    cbn beta. intros x y. apply Qle_bool_iff.
Qed.

Lemma sort_values_desc_is_Some {A} (column : A → Q) (rows : list A) :
  rows ≠ [] → is_Some (sort_values_desc column rows).
Proof. destruct rows; [done|]. by eexists. Qed.

(** ** Rounding *)

Lemma round_half_even_error (q : Q) :
  (Qabs (inject_Z (round_half_even q) - q) <= 1 # 2)%Q.
Proof.
  unfold round_half_even.
  pose proof (Qfloor_le q) as Hlo. pose proof (Qlt_floor q) as Hhi.
  rewrite inject_Z_plus in Hhi. change (inject_Z 1) with 1%Q in Hhi.
  apply Qabs_Qle_condition.
  destruct (q - inject_Z (Qfloor q) ?= 1 # 2)%Q eqn:Hc.
  - apply Qeq_alt in Hc.
    destruct (Z.even (Qfloor q)); rewrite ?inject_Z_plus; change (inject_Z 1) with 1%Q;
      split; lra.
  - apply Qlt_alt in Hc. split; lra.
  - apply Qgt_alt in Hc. rewrite inject_Z_plus. change (inject_Z 1) with 1%Q. split; lra.
Qed.

Lemma round2_error (q : Q) : (Qabs (round2 q - q) <= 1 # 200)%Q.
Proof.
  unfold round2. rewrite Qred_correct.
  pose proof (round_half_even_error (q * 100)) as H.
  apply Qabs_Qle_condition in H. apply Qabs_Qle_condition.
  rewrite (Qmake_Qdiv _ 100). change (inject_Z (Z.pos 100)) with 100%Q.
  set (z := inject_Z (round_half_even (q * 100))) in *.
  split.
  - apply Qmult_le_r with (z := 100%Q); [reflexivity|]. field_simplify. lra.
  - apply Qmult_le_r with (z := 100%Q); [reflexivity|]. field_simplify. lra.
Qed.

Lemma round_half_even_bounds (q : Q) :
  (Qfloor q ≤ round_half_even q ≤ Qfloor q + 1)%Z.
Proof.
  unfold round_half_even.
  destruct (q - inject_Z (Qfloor q) ?= 1 # 2)%Q; [destruct (Z.even _)|..]; lia.
Qed.

Lemma round_half_even_mono (x y : Q) :
  (x <= y)%Q → (round_half_even x ≤ round_half_even y)%Z.
Proof.
  intros Hxy. pose proof (Qfloor_resp_le _ _ Hxy) as Hf.
  destruct (decide (Qfloor x = Qfloor y)) as [Heq|Hne].
  - unfold round_half_even. rewrite <- Heq.
    destruct (x - inject_Z (Qfloor x) ?= 1 # 2)%Q eqn:Hx;
      destruct (y - inject_Z (Qfloor x) ?= 1 # 2)%Q eqn:Hy;
      try destruct (Z.even (Qfloor x)); try lia;
      exfalso;
      repeat match goal with
             | H : (_ ?= _)%Q = Eq |- _ => apply Qeq_alt in H
             | H : (_ ?= _)%Q = Lt |- _ => apply Qlt_alt in H
             | H : (_ ?= _)%Q = Gt |- _ => apply Qgt_alt in H
             end; lra.
  - pose proof (round_half_even_bounds x). pose proof (round_half_even_bounds y). lia.
Qed.

Lemma round2_mono (x y : Q) : (x <= y)%Q → (round2 x <= round2 y)%Q.
Proof.
  intros Hxy. unfold round2. rewrite !Qred_correct.
  unfold Qle. simpl. apply Z.mul_le_mono_nonneg_r; [lia|].
  apply round_half_even_mono. lra.
Qed.

Lemma round2_nonneg (x : Q) : (0 <= x)%Q → (0 <= round2 x)%Q.
Proof. intros H. apply (round2_mono 0 x) in H. exact H. Qed.

Lemma round2_two_decimals (q : Q) : two_decimals (round2 q).
Proof. exists (round_half_even (q * 100)). unfold round2. apply Qred_correct. Qed.

Lemma round2_rounded (q : Q) : rounded_to_2_decimals q (round2 q).
Proof. split; [apply round2_two_decimals|apply round2_error]. Qed.

(** ** Trace builder *)

Lemma row_leb_total r s : row_leb r s = false → row_leb s r = true.
Proof.
  unfold row_leb. rewrite (String.compare_antisym (row_case r) (row_case s)).
  destruct (String.compare (row_case s) (row_case r)); simpl; try done.
  intros H. apply Z.leb_gt in H. apply Z.leb_le. lia.
Qed.

Lemma string_compare_lt_trans a b c :
  String.compare a b = Lt → String.compare b c = Lt → String.compare a c = Lt.
Proof.
  intros H1 H2.
  apply OrderedTypeEx.String_as_OT.cmp_lt. apply OrderedTypeEx.String_as_OT.cmp_lt in H1, H2.
  by eapply OrderedTypeEx.String_as_OT.lt_trans.
Qed.

Lemma row_leb_trans r s t : row_leb r s = true → row_leb s t = true → row_leb r t = true.
Proof.
  unfold row_leb.
  destruct (String.compare (row_case r) (row_case s)) eqn:H1; try done;
    destruct (String.compare (row_case s) (row_case t)) eqn:H2; try done.
  - apply String.compare_eq_iff in H1, H2. rewrite H1, H2.
    replace (String.compare (row_case t) (row_case t)) with Eq
      by (symmetry; by apply OrderedTypeEx.String_as_OT.cmp_eq).
    intros Ha Hb. apply Z.leb_le in Ha, Hb. apply Z.leb_le. lia.
  - apply String.compare_eq_iff in H1. by rewrite H1, H2.
  - apply String.compare_eq_iff in H2. by rewrite <- H2, H1.
  - by rewrite (string_compare_lt_trans _ _ _ H1 H2).
Qed.

Lemma row_leb_same_case r s :
  row_case r = row_case s → row_leb r s = true → (row_timestamp r ≤ row_timestamp s)%Z.
Proof.
  unfold row_leb. intros ->.
  replace (String.compare (row_case s) (row_case s)) with Eq
    by (symmetry; by apply OrderedTypeEx.String_as_OT.cmp_eq).
  apply Z.leb_le.
Qed.

Lemma case_size_perm df df' c : df ≡ₚ df' → case_size df c = case_size df' c.
Proof. unfold case_size. by intros ->. Qed.

Section EventLogConversion.
Import log_converter.

Lemma case_events_append_event c e log c' :
  case_events (append_event c e log) c' =
  if decide (c = c') then case_events log c ++ [e] else case_events log c'.
Proof.
  induction log as [|tr log IH]; simpl.
  - repeat case_decide; simplify_eq; done.
  - destruct (decide (case_name tr = c)) as [Hc|Hc]; simpl.
    + repeat case_decide; simplify_eq; done.
    + rewrite IH. repeat case_decide; simplify_eq; done.
Qed.

Lemma case_names_append_event c e log :
  case_name <$> append_event c e log =
  if decide (c ∈ case_name <$> log) then case_name <$> log else (case_name <$> log) ++ [c].
Proof.
  induction log as [|tr log IH].
  - destruct (decide (c ∈ case_name <$> [])) as [H|H]; [by apply elem_of_nil in H|done].
  - cbn [append_event].
    destruct (decide (case_name tr = c)) as [Hc|Hc]; rewrite !fmap_cons.
    + rewrite decide_True by (rewrite Hc; apply elem_of_cons; by left).
      by rewrite Hc.
    + rewrite IH. destruct (decide (c ∈ case_name <$> log)) as [Hin|Hin].
      * by rewrite decide_True by (apply elem_of_cons; by right).
      * rewrite decide_False; [done|]. intros [?|?]%elem_of_cons; by simplify_eq.
Qed.

Lemma case_names_append_event_NoDup c e log :
  NoDup (case_name <$> log) → NoDup (case_name <$> append_event c e log).
Proof.
  intros Hnd. rewrite case_names_append_event. case_decide as Hin; [done|].
  apply NoDup_app. split_and!; [done| |apply NoDup_singleton].
  intros x Hx ->%list_elem_of_singleton. done.
Qed.

Lemma case_events_lookup log tr :
  NoDup (case_name <$> log) → tr ∈ log → case_events log (case_name tr) = events tr.
Proof.
  induction log as [|tr' log IH]; simpl; [by intros _ ?%elem_of_nil|].
  intros [Hnotin Hnd]%NoDup_cons [->|Hin]%elem_of_cons.
  - by rewrite decide_True.
  - rewrite decide_False; [by apply IH|].
    intros Heq. apply Hnotin. rewrite Heq. by apply list_elem_of_fmap_2.
Qed.

Lemma to_event_log_fold df log :
  let log' := foldl (λ log r, append_event (row_case r) (row_event r) log) log df in
  (NoDup (case_name <$> log) → NoDup (case_name <$> log')) ∧
  (∀ c, c ∈ case_name <$> log' ↔ c ∈ case_name <$> log ∨ c ∈ row_case <$> df) ∧
  (∀ c, case_events log' c =
        case_events log c ++ (row_event <$> filter (λ r, row_case r = c) df)).
Proof.
  revert log. induction df as [|r df IH]; intros log; simpl.
  - split_and!; [done| |].
    + intros c. rewrite elem_of_nil. tauto.
    + intros c. by rewrite app_nil_r.
  - destruct (IH (append_event (row_case r) (row_event r) log)) as (IH1 & IH2 & IH3).
    split_and!.
    + intros Hnd. by apply IH1, case_names_append_event_NoDup.
    + intros c. rewrite IH2, case_names_append_event, elem_of_cons.
      case_decide as Hin; [|rewrite elem_of_app, list_elem_of_singleton].
      * split; [tauto|]. intros [?|[->|?]]; tauto.
      * tauto.
    + intros c. rewrite IH3, case_events_append_event, filter_cons.
      repeat case_decide; simplify_eq; simpl; [|done].
      by rewrite <- app_assoc.
Qed.

Lemma elem_of_to_event_log df tr :
  tr ∈ to_event_log df →
  case_name tr ∈ row_case <$> df ∧
  events tr = row_event <$> filter (λ r, row_case r = case_name tr) df.
Proof.
  intros Hin. destruct (to_event_log_fold df []) as (H1 & H2 & H3).
  fold (to_event_log df) in H1, H2, H3. split.
  - apply (list_elem_of_fmap_2 case_name) in Hin. apply H2 in Hin as [Hin|Hin]; [|done].
    by apply elem_of_nil in Hin.
  - rewrite <- (case_events_lookup (to_event_log df)); [|apply H1; constructor|done].
    by rewrite H3.
Qed.

End EventLogConversion.

Lemma case_rows_sorted df c :
  StronglySorted (λ r s, (row_timestamp r ≤ row_timestamp s)%Z)
    (filter (λ r, row_case r = c) (stable_sort row_leb df)).
Proof.
  eapply StronglySorted_filter_impl;
    [|apply stable_sort_sorted; [apply row_leb_total|apply row_leb_trans]].
  cbn beta. intros r s Hr Hs. apply row_leb_same_case. congruence.
Qed.

Lemma filter_case_size_2 df :
  pm4py.filter_case_size df 2 None = filter (λ r, 2 ≤ case_size df (row_case r)) df.
Proof. done. Qed.

Lemma case_size_filter_case (Q : string → Prop) `{!∀ c, Decision (Q c)} df c :
  case_size (filter (λ r, Q (row_case r)) df) c = if decide (Q c) then case_size df c else 0.
Proof.
  unfold case_size. rewrite list_filter_filter.
  case_decide as HQ.
  - f_equal. apply list_filter_iff. intros r. split; [tauto|]. intros <-. done.
  - rewrite filter_none; [done|].
    apply Forall_forall. intros r _ [<- ?]. done.
Qed.

(** C1. For every data frame, every trace of the event log the trace
    builder returns is sorted non-decreasing by timestamp and has at least 2
    events; a case with fewer than 2 rows has no trace in the log, and the
    log, the only input of the analyzers, is the one built from the frame
    without the rows of such cases. *)
Theorem trace_builder_invariants (df : DataFrame) :
  (∀ tr, tr ∈ trace_builder df → time_sorted (events tr) ∧ 2 ≤ length (events tr)) ∧
  (∀ c, case_size df c < 2 → ∀ tr, tr ∈ trace_builder df → case_name tr ≠ c) ∧
  trace_builder (filter (λ r, 2 ≤ case_size df (row_case r)) df) = trace_builder df.
Proof.
  unfold trace_builder. rewrite !filter_case_size_2. unfold pm4py.format_dataframe.
  set (sorted := stable_sort row_leb df).
  assert (Hsize : ∀ c, case_size sorted c = case_size df c).
  { intros c. apply case_size_perm, stable_sort_perm. }
  assert (Hkept : ∀ tr,
    tr ∈ log_converter.to_event_log (filter (λ r, 2 ≤ case_size sorted (row_case r)) sorted) →
    2 ≤ case_size df (case_name tr) ∧
    events tr = log_converter.row_event <$> filter (λ r, row_case r = case_name tr) sorted).
  { intros tr [Hc Hev]%elem_of_to_event_log.
    apply list_elem_of_fmap in Hc as (r & Hr & [Hge Hin]%list_elem_of_filter).
    rewrite Hsize, <- Hr in Hge. split; [done|].
    rewrite Hev, list_filter_filter. f_equal.
    apply list_filter_iff. intros s. split; [tauto|].
    intros Hs. split; [done|]. by rewrite Hsize, Hs. }
  split_and!.
  - intros tr Htr. destruct (Hkept tr Htr) as [Hge Hev]. rewrite Hev. split.
    + split.
      * apply Forall_fmap, Forall_forall. intros r _. by eexists.
      * eapply StronglySorted_fmap; [|apply case_rows_sorted].
        intros r s Hrs. exact Hrs.
    + by rewrite length_fmap, <- Hsize in *.
  - intros c Hlt tr Htr <-. destruct (Hkept tr Htr) as [Hge _]. lia.
  - f_equal.
    rewrite <- (filter_stable_sort row_leb (λ r, 2 ≤ case_size df (row_case r)))
      by (apply row_leb_trans || apply row_leb_total).
    fold sorted.
    rewrite (list_filter_iff (λ r, 2 ≤ case_size sorted (row_case r))
                             (λ r, 2 ≤ case_size df (row_case r)))
      by (intros r; by rewrite Hsize).
    rewrite filter_all; [done|]. apply Forall_forall.
    intros r [Hr _]%list_elem_of_filter.
    pose proof (case_size_filter_case (λ c, 2 ≤ case_size df c) sorted (row_case r))
      as Heq.
    rewrite decide_True, Hsize in Heq by done.
    etransitivity; [exact Hr|]. apply Nat.eq_le_incl. symmetry. exact Heq.
Qed.

(** Every log the trace builder returns is one whose events all carry
    timestamps, so the timing loop completes on it. *)
Lemma trace_builder_timestamped (df : DataFrame) : timestamped (trace_builder df).
Proof.
  apply Forall_forall. intros tr [_ Hev]%elem_of_to_event_log.
  rewrite Hev. apply Forall_fmap, Forall_forall. intros r _. by eexists.
Qed.

Lemma trace_builder_invariants_witness :
  let df := [ {| row_case := "2"; row_activity := "y"; row_timestamp := 5 |};
              {| row_case := "1"; row_activity := "a"; row_timestamp := 9 |};
              {| row_case := "2"; row_activity := "x"; row_timestamp := 3 |};
              {| row_case := "3"; row_activity := "z"; row_timestamp := 1 |};
              {| row_case := "1"; row_activity := "b"; row_timestamp := 9 |} ] in
  let tr := {| case_name := "2";
               events := [ {| concept_name := "x"; time_timestamp := Some 3%Z |};
                           {| concept_name := "y"; time_timestamp := Some 5%Z |} ] |} in
  tr ∈ trace_builder df ∧ case_size df "3" < 2 ∧
  (time_sorted (events tr) ∧ 2 ≤ length (events tr)) ∧ case_name tr ≠ "3".
Proof.
  intros df tr.
  assert (Hin : tr ∈ trace_builder df) by (apply list_elem_of_In; right; left; reflexivity).
  assert (Hlt : case_size df "3" < 2) by (vm_compute; lia).
  split; [exact Hin|]. split; [exact Hlt|]. split.
  - exact (proj1 (trace_builder_invariants df) tr Hin).
  - exact (proj1 (proj2 (trace_builder_invariants df)) "3" Hlt tr Hin).
Defined.

(** ** Case durations *)

(** C3, as the specification states it, fails: on the empty log the mean
    is reported as the number 0, not as the sentinel. *)
Lemma empty_log_mean_is_zero :
  ∃ m, case_duration_analyzer [] = Some m ∧
       avg_case_duration m = Hours 0 ∧ avg_case_duration m ≠ NotAvailable.
Proof. eexists. split; [reflexivity|]. split; [reflexivity|discriminate]. Qed.

(** C3, amended. On the empty event log the case-duration analyzer raises
    no error; the minimum and the maximum are reported as the sentinel
    ["N/A"], and the mean is reported as 0 hours. *)
Theorem empty_log_case_metrics :
  case_duration_analyzer [] =
  Some {| avg_case_duration := Hours 0;
          min_case_duration := NotAvailable;
          max_case_duration := NotAvailable |}.
Proof. reflexivity. Qed.

(** ** Activity timing *)

Lemma timing_step_spec m prev e :
  is_Some (time_timestamp e) →
  from_option (λ p, is_Some (time_timestamp p)) True prev →
  ∃ m', timing_step (m, prev) e = Some (m', Some e) ∧
        dom m' = dom m ∪ {[concept_name e]} ∧
        ∀ a, stored_durations m' a =
             stored_durations m a ++ (filter (λ s, s.1 = a) (samples_from prev [e])).*2.
Proof.
  intros [t Ht] Hprev. unfold timing_step.
  set (m1 := match m !! concept_name e with
             | None => <[concept_name e := {| durations := [] |}]> m
             | Some _ => m
             end).
  assert (Hdom : dom m1 = dom m ∪ {[concept_name e]}).
  { subst m1. destruct (m !! concept_name e) eqn:Hm.
    - apply (elem_of_dom_2 (D := gset string)) in Hm. set_solver.
    - rewrite dom_insert_L. set_solver. }
  assert (Hget : ∀ a, stored_durations m1 a = stored_durations m a).
  { intros a. subst m1. unfold stored_durations.
    destruct (m !! concept_name e) eqn:Hm; [done|].
    destruct (decide (concept_name e = a)) as [<-|Hne].
    - by rewrite lookup_insert_eq, Hm.
    - by rewrite lookup_insert_ne. }
  clearbody m1. destruct prev as [p|]; simpl in *.
  - destruct Hprev as [tp Htp]. rewrite Ht, Htp. simpl.
    eexists. split; [done|]. split; [by rewrite dom_alter_L|].
    intros a. unfold stored_durations at 1. rewrite lookup_alter.
    unfold ts_of. rewrite Ht, Htp. simpl. rewrite filter_cons, filter_nil. simpl.
    destruct (decide (concept_name e = a)) as [<-|Hne].
    + rewrite <- Hget. unfold stored_durations.
      assert (is_Some (m1 !! concept_name e)) as [en Hen].
      { apply (elem_of_dom (D := gset string)). set_solver. }
      by rewrite Hen.
    + rewrite app_nil_r. apply Hget.
  - eexists. split; [done|]. split; [done|].
    intros a. by rewrite app_nil_r.
Qed.

Lemma samples_from_cons prev e evs :
  samples_from prev (e :: evs) = samples_from prev [e] ++ samples_from (Some e) evs.
Proof. by destruct prev. Qed.

Lemma for_each_timing_step evs : ∀ m prev,
  Forall (λ e, is_Some (time_timestamp e)) evs →
  from_option (λ p, is_Some (time_timestamp p)) True prev →
  ∃ st, for_each timing_step evs (m, prev) = Some st ∧
        dom st.1 = dom m ∪ list_to_set (concept_name <$> evs) ∧
        ∀ a, stored_durations st.1 a =
             stored_durations m a ++ (filter (λ s, s.1 = a) (samples_from prev evs)).*2.
Proof.
  induction evs as [|e evs IH]; intros m prev Hts Hprev.
  - eexists. split; [done|]. split; [set_solver|].
    intros a. destruct prev; simpl; by rewrite app_nil_r.
  - apply Forall_cons in Hts as [He Hts].
    destruct (timing_step_spec m prev e He Hprev) as (m1 & Hstep & Hdom1 & Hget1).
    destruct (IH m1 (Some e) Hts He) as (st & Hrun & Hdom & Hget).
    exists st. split; [|split].
    + cbn [for_each]. rewrite Hstep. exact Hrun.
    + rewrite Hdom, Hdom1, fmap_cons, list_to_set_cons. set_solver.
    + intros a. rewrite (samples_from_cons prev e evs), filter_app, fmap_app.
      by rewrite Hget, Hget1, app_assoc.
Qed.

Lemma mapM_time_timestamp evs :
  Forall (λ e, is_Some (time_timestamp e)) evs → is_Some (mapM time_timestamp evs).
Proof. intros H. apply mapM_is_Some. exact H. Qed.

Lemma sorted_by_timestamp_ok evs :
  Forall (λ e, is_Some (time_timestamp e)) evs →
  sorted_by_timestamp evs = Some (in_time_order evs).
Proof.
  intros [ts Hts]%mapM_time_timestamp. unfold sorted_by_timestamp. by rewrite Hts.
Qed.

Lemma timing_trace_spec m tr :
  Forall (λ e, is_Some (time_timestamp e)) (events tr) →
  ∃ m', timing_trace m tr = Some m' ∧
        dom m' = dom m ∪ list_to_set (concept_name <$> events tr) ∧
        ∀ a, stored_durations m' a =
             stored_durations m a ++
             (filter (λ s, s.1 = a) (elapsed_samples (in_time_order (events tr)))).*2.
Proof.
  intros Hts. unfold timing_trace. rewrite sorted_by_timestamp_ok by done. simpl.
  assert (Hperm : in_time_order (events tr) ≡ₚ events tr) by apply stable_sort_perm.
  destruct (for_each_timing_step (in_time_order (events tr)) m None) as (st & Hrun & Hdom & Hget).
  { by rewrite Hperm. }
  { done. }
  rewrite Hrun. simpl. eexists. split; [done|]. split; [|exact Hget].
  rewrite Hdom. f_equal. apply set_eq. intros a.
  rewrite !elem_of_list_to_set. by rewrite Hperm.
Qed.

Lemma for_each_timing_trace log : ∀ m,
  timestamped log →
  ∃ m', for_each timing_trace log m = Some m' ∧
        dom m' = dom m ∪ list_to_set (log_activities log) ∧
        ∀ a, stored_durations m' a =
             stored_durations m a ++
             (filter (λ s, s.1 = a)
                (tr ← log; elapsed_samples (in_time_order (events tr)))).*2.
Proof.
  induction log as [|tr log IH]; intros m Hts.
  - eexists. split; [done|]. split; [set_solver|].
    intros a. by rewrite app_nil_r.
  - apply Forall_cons in Hts as [Htr Hts].
    destruct (timing_trace_spec m tr Htr) as (m1 & Hstep & Hdom1 & Hget1).
    destruct (IH m1 Hts) as (m' & Hrun & Hdom & Hget).
    exists m'. split; [|split].
    + cbn [for_each]. rewrite Hstep. exact Hrun.
    + rewrite Hdom, Hdom1. unfold log_activities. rewrite bind_cons, list_to_set_app_L.
      set_solver.
    + intros a. rewrite Hget, Hget1, bind_cons, filter_app, fmap_app.
      by rewrite app_assoc.
Qed.

Lemma activity_timing_spec log :
  timestamped log →
  ∃ m, activity_timing log = Some m ∧
       ∀ a, m !! a = if decide (a ∈ log_activities log)
                     then Some {| durations := duration_samples log a |}
                     else None.
Proof.
  intros Hts. destruct (for_each_timing_trace log ∅ Hts) as (m & Hrun & Hdom & Hget).
  exists m. split; [done|]. intros a.
  rewrite dom_empty_L, (left_id_L ∅ (∪)) in Hdom.
  case_decide as Hin.
  - assert (is_Some (m !! a)) as [[ds] Hm].
    { apply (elem_of_dom (D := gset string)). rewrite Hdom. by apply elem_of_list_to_set. }
    specialize (Hget a). unfold stored_durations in Hget.
    rewrite Hm, lookup_empty in Hget. simpl in Hget. by rewrite Hm, Hget.
  - apply (not_elem_of_dom (D := gset string)). rewrite Hdom.
    by rewrite elem_of_list_to_set.
Qed.

Lemma in_time_order_pair a b ta tb :
  (ta ≤ tb)%Z →
  in_time_order [ {| concept_name := a; time_timestamp := Some ta |};
                  {| concept_name := b; time_timestamp := Some tb |} ] =
  [ {| concept_name := a; time_timestamp := Some ta |};
    {| concept_name := b; time_timestamp := Some tb |} ].
Proof.
  intros Hle. apply stable_sort_id. repeat constructor. by apply Z.leb_le.
Qed.

(** C2. On a log whose events all carry timestamps the timing loop
    completes, and the durations it stores for an activity are exactly, in
    order, the seconds elapsed since the immediately preceding event of the
    same trace (in time order) for every event of that activity except the
    first event of a trace; an activity absent from the log has no entry.
    On the two-trace log of scenario 1, activity y has count 2 and
    durations [60, 120], whose mean is 90 seconds, and x has no sample. *)
Theorem activity_timing_durations :
  (∀ log, timestamped log →
     ∃ m, activity_timing log = Some m ∧
          ∀ a, m !! a = if decide (a ∈ log_activities log)
                        then Some {| durations := duration_samples log a |}
                        else None) ∧
  (∀ t0, ∃ m, activity_timing (scenario1 t0) = Some m ∧
              pm4py.get_event_attribute_values (scenario1 t0) = [("x", 2); ("y", 2)] ∧
              m !! "y" = Some {| durations := [60%Q; 120%Q] |} ∧
              m !! "x" = Some {| durations := [] |} ∧
              (mean [60; 120] == 90)%Q).
Proof.
  split; [exact activity_timing_spec|].
  intros t0.
  destruct (activity_timing_spec (scenario1 t0)) as (m & Hrun & Hm).
  { timestamped_by_computation. }
  exists m. split; [done|]. split; [reflexivity|].
  assert (Hsamples : ∀ a, duration_samples (scenario1 t0) a =
            (filter (λ s, s.1 = a) [("y", 60%Q); ("y", 120%Q)]).*2).
  { intros a. unfold duration_samples, scenario1.
    cbn [mbind list_bind events].
    rewrite !in_time_order_pair by (unfold second; lia).
    unfold elapsed_samples, samples_after, ts_of. cbn [time_timestamp default from_option id concept_name app].
    replace (t0 + 60 * second - t0)%Z with (60 * second)%Z by lia.
    replace (t0 + 120 * second - t0)%Z with (120 * second)%Z by lia.
    reflexivity. }
  split_and!.
  - rewrite Hm, Hsamples. reflexivity.
  - rewrite Hm, Hsamples. reflexivity.
  - reflexivity.
Qed.

Lemma activity_timing_durations_witness :
  timestamped (scenario1 0) ∧
  ∃ m, activity_timing (scenario1 0) = Some m ∧
       ∀ a, m !! a = if decide (a ∈ log_activities (scenario1 0))
                     then Some {| durations := duration_samples (scenario1 0) a |}
                     else None.
Proof.
  assert (H : timestamped (scenario1 0)) by timestamped_by_computation.
  split; [exact H|]. exact (proj1 activity_timing_durations (scenario1 0) H).
Defined.

(** ** Activity counts *)

Lemma count_value_keys a counts :
  (pm4py.count_value a counts).*1 =
  if decide (a ∈ counts.*1) then counts.*1 else counts.*1 ++ [a].
Proof.
  induction counts as [|[b n] counts IH].
  - destruct (decide (a ∈ ([] : list (string * nat)).*1)) as [H|H];
      [by apply elem_of_nil in H|done].
  - cbn [pm4py.count_value]. destruct (decide (b = a)) as [->|Hne]; rewrite !fmap_cons; simpl.
    + by rewrite decide_True by (apply elem_of_cons; by left).
    + rewrite IH. destruct (decide (a ∈ counts.*1)) as [Hin|Hin].
      * by rewrite decide_True by (apply elem_of_cons; by right).
      * rewrite decide_False; [done|]. intros [?|?]%elem_of_cons; by simplify_eq.
Qed.

Lemma count_of_count_value a counts b :
  count_of (pm4py.count_value a counts) b =
  count_of counts b + (if decide (a = b) then 1 else 0).
Proof.
  induction counts as [|[c n] counts IH]; simpl.
  - repeat case_decide; simplify_eq; done.
  - destruct (decide (c = a)) as [->|Hne]; simpl.
    + repeat case_decide; simplify_eq; lia.
    + rewrite IH. repeat case_decide; simplify_eq; lia.
Qed.

Lemma count_total_count_value a counts :
  count_total (pm4py.count_value a counts) = S (count_total counts).
Proof.
  unfold count_total. induction counts as [|[c n] counts IH]; [done|].
  cbn [pm4py.count_value]. destruct (decide (c = a)); rewrite !fmap_cons; cbn [foldr snd].
  - done.
  - rewrite IH. lia.
Qed.

Lemma count_values_fold labels : ∀ counts,
  let counts' := foldl (λ counts a, pm4py.count_value a counts) counts labels in
  (NoDup counts.*1 → NoDup counts'.*1) ∧
  (∀ a, a ∈ counts'.*1 ↔ a ∈ counts.*1 ∨ a ∈ labels) ∧
  (∀ a, count_of counts' a = count_of counts a + occurrences a labels) ∧
  count_total counts' = count_total counts + length labels.
Proof.
  induction labels as [|b labels IH]; intros counts; simpl.
  - split_and!; [done| |intros a; unfold occurrences; simpl; lia|lia].
    intros a. rewrite elem_of_nil. tauto.
  - destruct (IH (pm4py.count_value b counts)) as (IH1 & IH2 & IH3 & IH4).
    split_and!.
    + intros Hnd. apply IH1. rewrite count_value_keys. case_decide as Hin; [done|].
      apply NoDup_app. split_and!; [done| |apply NoDup_singleton].
      by intros x Hx ->%list_elem_of_singleton.
    + intros a. rewrite IH2, count_value_keys, elem_of_cons.
      case_decide as Hin; [|rewrite elem_of_app, list_elem_of_singleton].
      * split; [tauto|]. intros [?|[->|?]]; tauto.
      * tauto.
    + intros a. rewrite IH3, count_of_count_value. unfold occurrences.
      rewrite filter_cons. repeat case_decide; simplify_eq; simpl; lia.
    + rewrite IH4, count_total_count_value. lia.
Qed.

Lemma get_event_attribute_values_flat log :
  pm4py.get_event_attribute_values log =
  foldl (λ counts a, pm4py.count_value a counts) [] (log_activities log).
Proof.
  unfold pm4py.get_event_attribute_values, log_activities.
  generalize ([] : list (string * nat)).
  induction log as [|tr log IH]; intros counts; simpl; [done|].
  rewrite foldl_app, <- IH. f_equal.
  generalize counts. induction (events tr) as [|e evs IHe]; intros c; simpl; [done|].
  apply IHe.
Qed.

Lemma count_of_lookup counts a n :
  NoDup counts.*1 → (a, n) ∈ counts → count_of counts a = n.
Proof.
  induction counts as [|[b k] counts IH]; simpl; [by intros _ ?%elem_of_nil|].
  intros [Hnotin Hnd]%NoDup_cons [[= -> ->]|Hin]%elem_of_cons.
  - by rewrite decide_True.
  - rewrite decide_False; [by apply IH|].
    intros ->. apply Hnotin. by apply (list_elem_of_fmap_2 fst) in Hin.
Qed.

Lemma activity_counts_spec log :
  let counts := pm4py.get_event_attribute_values log in
  NoDup counts.*1 ∧
  (∀ a, a ∈ counts.*1 ↔ a ∈ log_activities log) ∧
  (∀ a n, (a, n) ∈ counts → n = occurrences a (log_activities log)) ∧
  count_total counts = length (log_activities log).
Proof.
  cbn zeta. rewrite get_event_attribute_values_flat.
  destruct (count_values_fold (log_activities log) []) as (H1 & H2 & H3 & H4).
  cbn zeta in *. split_and!.
  - apply H1. constructor.
  - intros a. rewrite H2, elem_of_nil. tauto.
  - intros a n Hin. apply count_of_lookup in Hin; [|apply H1; constructor].
    by rewrite <- Hin, H3.
  - by rewrite H4.
Qed.

(** ** Activity table *)

Lemma activity_row_fields counts m a n row :
  activity_row counts m (a, n) = Some row →
  Activity row = a ∧ Count row = n ∧
  Percentage row = round2 (Qnat n / Qnat (count_total counts) * 100).
Proof.
  unfold activity_row. destruct (m !! a) as [entry|]; simpl; [|done].
  by intros [= <-].
Qed.

Lemma activity_row_is_Some counts m a n :
  is_Some (m !! a) → is_Some (activity_row counts m (a, n)).
Proof. intros [entry Hm]. unfold activity_row. rewrite Hm. by eexists. Qed.

Lemma activity_data_is_Some counts m :
  (∀ a, a ∈ counts.*1 → is_Some (m !! a)) → is_Some (activity_data counts m).
Proof.
  intros Hm. unfold activity_data. apply mapM_is_Some, Forall_forall.
  intros [a n] Hin. apply activity_row_is_Some, Hm.
  by apply (list_elem_of_fmap_2 fst) in Hin.
Qed.

Lemma activity_data_rows counts m rows :
  activity_data counts m = Some rows →
  Forall2 (λ item row, Activity row = item.1 ∧ Count row = item.2 ∧
             Percentage row = round2 (Qnat item.2 / Qnat (count_total counts) * 100))
          counts rows.
Proof.
  unfold activity_data. intros H%mapM_Some.
  eapply Forall2_impl; [exact H|]. intros [a n] row. apply activity_row_fields.
Qed.

Lemma Qnat_S n : (Qnat (S n) == Qnat n + 1)%Q.
Proof.
  unfold Qnat. rewrite Nat2Z.inj_succ, <- Z.add_1_r, inject_Z_plus. reflexivity.
Qed.

Lemma Qnat_plus n k : (Qnat (n + k) == Qnat n + Qnat k)%Q.
Proof. unfold Qnat. by rewrite Nat2Z.inj_add, inject_Z_plus. Qed.

Lemma Qsum_round2 xs :
  (Qabs (Qsum (round2 <$> xs) - Qsum xs) <= Qnat (length xs) * (1 # 200))%Q.
Proof.
  induction xs as [|x xs IH].
  - vm_compute. discriminate.
  - rewrite !fmap_cons. cbn [Qsum foldr length]. fold (Qsum xs) (Qsum (round2 <$> xs)).
    pose proof (round2_error x) as Hx.
    apply Qabs_Qle_condition in Hx, IH. apply Qabs_Qle_condition.
    rewrite Qnat_S. split; lra.
Qed.

Lemma Qsum_shares (ns : list nat) (t : Q) :
  (Qsum ((λ n, Qnat n / t * 100) <$> ns) == Qnat (foldr plus 0%nat ns) / t * 100)%Q.
Proof.
  induction ns as [|n ns IH]; simpl.
  - unfold Qnat, Qdiv. simpl. ring.
  - rewrite IH, Qnat_plus. unfold Qdiv. ring.
Qed.

Lemma percentages_of_rows (t : Q) (items : list (string * nat)) (rows : list ActivityRow) :
  Forall2 (λ item row, Percentage row = round2 (Qnat item.2 / t * 100)) items rows →
  Percentage <$> rows = round2 <$> ((λ n, Qnat n / t * 100)%Q <$> items.*2).
Proof.
  induction 1 as [|[a n] row items rows Hp _ IH]; [done|].
  rewrite !fmap_cons, IH. simpl. by rewrite Hp.
Qed.

Lemma percentages_sum counts rows :
  0 < count_total counts →
  Forall2 (λ item row, Activity row = item.1 ∧ Count row = item.2 ∧
             Percentage row = round2 (Qnat item.2 / Qnat (count_total counts) * 100))
          counts rows →
  (Qabs (Qsum (Percentage <$> rows) - 100) <= Qnat (length rows) * (1 # 200))%Q.
Proof.
  intros Hpos Hrows.
  assert (Hpct : Percentage <$> rows =
            round2 <$> ((λ n, Qnat n / Qnat (count_total counts) * 100)%Q <$> counts.*2)).
  { apply percentages_of_rows. eapply Forall2_impl; [exact Hrows|].
    by intros item row (_ & _ & Hp). }
  rewrite Hpct.
  pose proof (Qsum_round2 ((λ n, Qnat n / Qnat (count_total counts) * 100)%Q <$> counts.*2))
    as Hsum.
  rewrite !length_fmap in Hsum.
  rewrite <- (Forall2_length _ _ _ Hrows).
  assert (H100 : (Qsum ((λ n, Qnat n / Qnat (count_total counts) * 100)%Q <$> counts.*2)
                  == 100)%Q).
  { rewrite Qsum_shares. fold (count_total counts). field.
    unfold Qnat, Qeq. simpl. lia. }
  by rewrite H100 in Hsum.
Qed.

Lemma activity_analysis_table log :
  activity_analysis log = activity_table log ≫= activity_df.
Proof.
  unfold activity_analysis, activity_table. by destruct (activity_timing log).
Qed.

Lemma activity_table_ok log :
  timestamped log →
  ∃ m rows,
    activity_timing log = Some m ∧
    (∀ a, a ∈ (pm4py.get_event_attribute_values log).*1 → is_Some (m !! a)) ∧
    activity_data (pm4py.get_event_attribute_values log) m = Some rows ∧
    activity_table log = Some rows.
Proof.
  intros Hts. destruct (activity_timing_spec log Hts) as (m & Hrun & Hm).
  destruct (activity_counts_spec log) as (_ & Hkeys & _).
  assert (Hdef : ∀ a, a ∈ (pm4py.get_event_attribute_values log).*1 → is_Some (m !! a)).
  { intros a Ha%Hkeys. rewrite Hm, decide_True by done. by eexists. }
  destruct (activity_data_is_Some _ _ Hdef) as [rows Hrows].
  exists m, rows. split_and!; [done..|].
  unfold activity_table. by rewrite Hrun.
Qed.

Lemma timing_trace_Some m tr m' :
  timing_trace m tr = Some m' → Forall (λ e, is_Some (time_timestamp e)) (events tr).
Proof.
  unfold timing_trace, sorted_by_timestamp.
  destruct (mapM time_timestamp (events tr)) as [ts|] eqn:Hts; [|done].
  intros _. apply mapM_is_Some. by eexists.
Qed.

Lemma for_each_timing_trace_Some log : ∀ m m',
  for_each timing_trace log m = Some m' → timestamped log.
Proof.
  induction log as [|tr log IH]; intros m m'; [by constructor|].
  cbn [for_each]. destruct (timing_trace m tr) as [m1|] eqn:Hstep; [|done].
  simpl. intros Hrun. constructor.
  - by eapply timing_trace_Some.
  - by eapply IH.
Qed.

(** C10. For every log, every activity label the frequency count returns
    has an entry in the timing dictionary the loop leaves, so no lookup of
    the loop that builds the activity table fails and the loop yields its
    rows; the timing loop itself completes on every log whose events all
    carry timestamps. *)
Theorem activity_table_lookups_defined (log : EventLog) :
  (timestamped log → is_Some (activity_timing log)) ∧
  (∀ m, activity_timing log = Some m →
        (∀ a, a ∈ (pm4py.get_event_attribute_values log).*1 → is_Some (m !! a)) ∧
        is_Some (activity_data (pm4py.get_event_attribute_values log) m)).
Proof.
  split.
  - intros Hts. destruct (activity_table_ok log Hts) as (m & _ & Hrun & _). by exists m.
  - intros m Hrun.
    assert (Hts : timestamped log) by (by eapply for_each_timing_trace_Some).
    destruct (activity_table_ok log Hts) as (m' & rows & Hrun' & Hdef & Hdata & _).
    rewrite Hrun in Hrun'. injection Hrun' as <-. split; [done|]. by exists rows.
Qed.

Lemma activity_table_lookups_defined_witness :
  timestamped (scenario1 0) ∧
  ∃ m, activity_timing (scenario1 0) = Some m ∧
       (∀ a, a ∈ (pm4py.get_event_attribute_values (scenario1 0)).*1 → is_Some (m !! a)) ∧
       is_Some (activity_data (pm4py.get_event_attribute_values (scenario1 0)) m).
Proof.
  assert (H : timestamped (scenario1 0)) by timestamped_by_computation.
  split; [exact H|].
  destruct (proj1 (activity_table_lookups_defined (scenario1 0)) H) as [m Hm].
  exists m. split; [exact Hm|].
  exact (proj2 (activity_table_lookups_defined (scenario1 0)) m Hm).
Defined.

Lemma dashboard_activity_table_defined (df : DataFrame) :
  is_Some (activity_table (trace_builder df)).
Proof.
  destruct (activity_table_ok _ (trace_builder_timestamped df)) as (m & rows & _ & _ & _ & H).
  by exists rows.
Qed.

(** C8. On a log whose events all carry timestamps, the activity table has
    exactly one row for every activity label of the log; its count is the
    number of events of the log bearing the label, its percentage is the
    count divided by the total number of events, times 100, rounded to 2
    decimals (a number with two decimals no further than 0.005 from the
    exact share), and the percentages of all rows sum to 100 up to 0.005
    per row. *)
Theorem activity_counts_and_percentages (log : EventLog) (a : string) :
  timestamped log →
  a ∈ log_activities log →
  ∃ rows,
    activity_table log = Some rows ∧
    (∃ row, row ∈ rows ∧ Activity row = a ∧
            Count row = occurrences a (log_activities log) ∧
            rounded_to_2_decimals
              (Qnat (occurrences a (log_activities log)) /
               Qnat (length (log_activities log)) * 100)
              (Percentage row) ∧
            ∀ row', row' ∈ rows → Activity row' = a → row' = row) ∧
    (Qabs (Qsum (Percentage <$> rows) - 100) <= Qnat (length rows) * (1 # 200))%Q.
Proof.
  intros Hts Ha.
  destruct (activity_table_ok log Hts) as (m & rows & _ & _ & Hdata & Htable).
  destruct (activity_counts_spec log) as (Hnd & Hkeys & Hocc & Htotal).
  pose proof (activity_data_rows _ _ _ Hdata) as Hrows.
  exists rows. split; [done|]. split.
  - apply Hkeys, list_elem_of_fmap in Ha as ([a' n] & -> & Hin).
    apply list_elem_of_lookup in Hin as [i Hi].
    destruct (Forall2_lookup_l _ _ _ _ _ Hrows Hi) as (row & Hrow & HA & HC & HP).
    simpl in *.
    assert (Hn : n = occurrences a' (log_activities log))
      by (by eapply Hocc, list_elem_of_lookup_2).
    exists row. split_and!.
    + by eapply list_elem_of_lookup_2.
    + done.
    + by rewrite HC.
    + rewrite HP, Htotal, Hn. apply round2_rounded.
    + intros row' [j Hj]%list_elem_of_lookup HA'.
      destruct (Forall2_lookup_r _ _ _ _ _ Hrows Hj) as ([a'' n''] & Hitem & HA'' & _).
      simpl in *. assert (i = j) as ->.
      { eapply NoDup_lookup; [exact Hnd| |].
        - rewrite list_lookup_fmap, Hi. reflexivity.
        - rewrite list_lookup_fmap, Hitem. simpl. congruence. }
      congruence.
  - apply (percentages_sum (pm4py.get_event_attribute_values log)); [|done]. rewrite Htotal.
    destruct (log_activities log); [by apply elem_of_nil in Ha|simpl; lia].
Qed.

Lemma activity_counts_and_percentages_witness :
  timestamped (scenario1 0) ∧ "y" ∈ log_activities (scenario1 0) ∧
  ∃ rows,
    activity_table (scenario1 0) = Some rows ∧
    (∃ row, row ∈ rows ∧ Activity row = "y" ∧
            Count row = occurrences "y" (log_activities (scenario1 0)) ∧
            rounded_to_2_decimals
              (Qnat (occurrences "y" (log_activities (scenario1 0))) /
               Qnat (length (log_activities (scenario1 0))) * 100)
              (Percentage row) ∧
            ∀ row', row' ∈ rows → Activity row' = "y" → row' = row) ∧
    (Qabs (Qsum (Percentage <$> rows) - 100) <= Qnat (length rows) * (1 # 200))%Q.
Proof.
  assert (H : timestamped (scenario1 0)) by timestamped_by_computation.
  assert (Hy : "y" ∈ log_activities (scenario1 0)).
  { apply list_elem_of_In. right. left. reflexivity. }
  split; [exact H|]. split; [exact Hy|].
  exact (activity_counts_and_percentages (scenario1 0) "y" H Hy).
Defined.

(** C9, as the specification states it, fails: two activities with equal
    counts stay in the order of the frequency dictionary, here b ahead of
    a. *)
Lemma activity_ties_not_in_label_order :
  ∃ r s, activity_analysis tied_log = Some [r; s] ∧
         Activity r = "b" ∧ Activity s = "a" ∧ Count r = Count s ∧
         String.compare (Activity r) (Activity s) = Gt.
Proof. do 2 eexists. split; [reflexivity|]. split_and!; reflexivity. Qed.

(** C9, amended. For every log, the presentation output of the activity
    analysis, whenever there is one, is the rows of the activity table
    rearranged in non-increasing order of count, and there is one for every
    log with at least one event whose events all carry timestamps; the order
    of rows with equal counts is not fixed by their labels. *)
Theorem activity_df_sorted_by_count (log : EventLog) :
  (timestamped log → log_activities log ≠ [] → is_Some (activity_analysis log)) ∧
  (∀ rows, activity_analysis log = Some rows →
     (∃ table, activity_table log = Some table ∧ rows ≡ₚ table) ∧
     StronglySorted (λ r s, Count s ≤ Count r) rows).
Proof.
  split.
  - intros Hts Hne.
    destruct (activity_table_ok log Hts) as (m & table & _ & _ & Hdata & Htable).
    destruct (activity_counts_spec log) as (_ & Hkeys & _ & _).
    pose proof (activity_data_rows _ _ _ Hdata) as Hrows.
    rewrite activity_analysis_table, Htable. apply sort_values_desc_is_Some.
    intros ->. apply Forall2_nil_inv_r in Hrows.
    destruct (log_activities log) as [|a l]; [done|].
    assert (Ha : a ∈ (pm4py.get_event_attribute_values log).*1) by (apply Hkeys; left).
    rewrite Hrows in Ha. by apply elem_of_nil in Ha.
  - intros rows. rewrite activity_analysis_table.
    destruct (activity_table log) as [table|]; [|done]. simpl. intros Hdf.
    pose proof (sort_values_desc_spec (λ r, Qnat (Count r)) table) as Hsort.
    unfold activity_df in Hdf. rewrite Hdf in Hsort. destruct Hsort as [Hperm Hsorted].
    split; [by exists table|].
    eapply StronglySorted_impl; [|exact Hsorted].
    cbn beta. intros r s. unfold Qnat. rewrite <- Zle_Qle. lia.
Qed.

Lemma activity_df_sorted_by_count_witness :
  timestamped tied_log ∧ log_activities tied_log ≠ [] ∧
  ∃ rows, activity_analysis tied_log = Some rows ∧
          (∃ table, activity_table tied_log = Some table ∧ rows ≡ₚ table) ∧
          StronglySorted (λ r s, Count s ≤ Count r) rows.
Proof.
  assert (H : timestamped tied_log) by timestamped_by_computation.
  assert (Hne : log_activities tied_log ≠ []) by discriminate.
  split; [exact H|]. split; [exact Hne|].
  destruct (proj1 (activity_df_sorted_by_count tied_log) H Hne) as [rows Hrows].
  exists rows. split; [exact Hrows|].
  exact (proj2 (activity_df_sorted_by_count tied_log) rows Hrows).
Defined.

(** ** Variants *)

Lemma variant_durations_step_spec acc tr :
  variant_durations_step acc tr =
  acc ++ (if decide (qualifies tr) then [trace_span tr] else []).
Proof.
  unfold variant_durations_step. fold (stamped_events tr).
  destruct (decide (qualifies tr)) as [Hq|Hq]; unfold qualifies in Hq.
  - rewrite decide_True by lia. unfold trace_span.
    destruct (stamped_events tr) as [|e evs] eqn:Hevs; [simpl in Hq; lia|].
    destruct (last (e :: evs)) eqn:Hlast; [done|].
    by apply last_None in Hlast.
  - rewrite decide_False by lia. by rewrite app_nil_r.
Qed.

Lemma variant_durations_fold traces : ∀ acc,
  foldl variant_durations_step acc traces =
  acc ++ (trace_span <$> filter qualifies traces).
Proof.
  induction traces as [|tr traces IH]; intros acc; simpl.
  - by rewrite app_nil_r.
  - rewrite IH, variant_durations_step_spec, filter_cons.
    destruct (decide (qualifies tr)); simpl.
    + by rewrite <- app_assoc.
    + by rewrite app_nil_r.
Qed.



(** ** Variant filter *)

(** C7. The variant filter of the dashboard does not return the traces of
    every selected variant. In [arrow_log] the variant (a → b, c) is present
    with the single trace [arrow_trace]; its entry in the ['Variant'] column
    reads a → b → c, which is split into (a, b, c), so the filter returns
    [plain_trace], a trace of another variant, and leaves out the matching
    trace. *)
Theorem variant_filter_splits_labels :
  let key := ["a → b"; "c"] in
  let selected_variant := String.concat arrow key in
  (key, [arrow_trace]) ∈ pm4py.get_variants_as_tuples arrow_log ∧
  (∃ df, variants_df (variant_stats (pm4py.get_variants_as_tuples arrow_log)) = Some df ∧
         selected_variant ∈ Variant <$> df) ∧
  split arrow selected_variant = ["a"; "b"; "c"] ∧
  filtered_log arrow_log selected_variant = [plain_trace] ∧
  filter (λ tr, variant_of tr = key) arrow_log = [arrow_trace].
Proof.
  split_and!; try reflexivity.
  - apply list_elem_of_In. left. reflexivity.
  - eexists. split; [reflexivity|]. apply list_elem_of_In. left. reflexivity.
Qed.

(** ** Bottlenecks *)

Lemma performance_step_spec acc item :
  performance_step acc item =
  acc ++ (if decide (positive_mean item)
          then [ {| From_ := item.1.1; To := item.1.2;
                    Avg_Time_hours := round2 (default 0%Q (mean_time item.2) / 3600) |} ]
          else []).
Proof.
  destruct item as [key time_info].
  destruct (decide (positive_mean (key, time_info))) as [(x & Hx & Hpos)|Hn];
    unfold performance_step; simpl in *.
  - unfold mean_time in *. rewrite Hx. simpl.
    destruct (Qlt_le_dec 0 x) as [Hlt|Hle]; [done|]. by apply Qle_not_lt in Hle.
  - unfold positive_mean, mean_time in *. simpl in Hn.
    destruct (as_number (avg_time_of time_info)) as [x|]; [|by rewrite app_nil_r].
    destruct (Qlt_le_dec 0 x) as [Hlt|Hle]; [|by rewrite app_nil_r].
    destruct Hn. by exists x.
Qed.

Lemma performance_data_fold mean_times : ∀ acc,
  foldl performance_step acc mean_times =
  acc ++ ((λ item, {| From_ := item.1.1; To := item.1.2;
                      Avg_Time_hours := round2 (default 0%Q (mean_time item.2) / 3600) |})
          <$> filter positive_mean mean_times).
Proof.
  induction mean_times as [|item mean_times IH]; intros acc; simpl.
  - by rewrite app_nil_r.
  - rewrite IH, performance_step_spec, filter_cons.
    destruct (decide (positive_mean item)); simpl.
    + by rewrite <- app_assoc.
    + by rewrite app_nil_r.
Qed.

Lemma bottleneck_analysis_spec mean_times :
  ∃ out, bottleneck_analysis mean_times = Some out ∧
         match out with
         | Ranked perf_df headline =>
             perf_df ≡ₚ performance_data mean_times ∧
             StronglySorted (λ r s, (Avg_Time_hours s <= Avg_Time_hours r)%Q) perf_df ∧
             headline = take 5 perf_df
         | NoValidData => performance_data mean_times = []
         end.
Proof.
  unfold bottleneck_analysis.
  destruct (performance_data mean_times) as [|r rows] eqn:Hdata.
  - by exists NoValidData.
  - pose proof (sort_values_desc_spec Avg_Time_hours (r :: rows)) as H.
    destruct (sort_values_desc Avg_Time_hours (r :: rows)) as [perf_df|]; [|done].
    destruct H as [Hperm Hsorted].
    exists (Ranked perf_df (df_head 5 perf_df)). by split.
Qed.

Lemma elem_of_performance_data mean_times r :
  r ∈ performance_data mean_times →
  ∃ item x, item ∈ mean_times ∧ mean_time item.2 = Some x ∧ (0 < x)%Q ∧
            transition r = item.1 ∧ Avg_Time_hours r = round2 (x / 3600).
Proof.
  unfold performance_data. rewrite performance_data_fold, app_nil_l.
  intros (item & -> & [(x & Hx & Hpos) Hin]%list_elem_of_filter)%list_elem_of_fmap.
  exists item, x. split_and!; [done..| |]; simpl.
  - by destruct item as [[??]?].
  - by rewrite Hx.
Qed.

Lemma valid_mean_time_iff time_info x :
  valid_mean_time time_info x ↔ mean_time time_info = Some x ∧ (0 < x)%Q.
Proof.
  unfold valid_mean_time, mean_time. split.
  - intros (v & Hs & Hp). destruct Hs as [d v Hd|v]; simpl; rewrite ?Hd; simpl;
      destruct Hp as [n Hn|y Hy|]; simpl; (split; [done|]); try done.
    + by rewrite Zlt_Qlt in Hn.
    + by rewrite Zlt_Qlt in Hn.
  - intros [Hm Hpos].
    assert (Hv : ∀ v, as_number v = Some x → positive_number v x).
    { intros [n|y|[|]|s|] [= <-]; try (by constructor).
      - constructor. by rewrite (Zlt_Qlt 0 n).
      - by apply Qlt_irrefl in Hpos. }
    destruct time_info as [d|v]; simpl in Hm.
    + destruct (d !! "mean") as [v|] eqn:Hd; simpl in Hm.
      * exists v. split; [by constructor|by apply Hv].
      * injection Hm as <-. by apply Qlt_irrefl in Hpos.
    + exists v. split; [constructor|by apply Hv].
Qed.

Lemma valid_entry_iff item : valid_entry item ↔ positive_mean item.
Proof.
  unfold valid_entry, positive_mean. by setoid_rewrite valid_mean_time_iff.
Qed.

Lemma filter_valid_entry (mean_times : list ((string * string) * TimeInfo)) :
  filter valid_entry mean_times = filter positive_mean mean_times.
Proof. apply list_filter_iff. intros item. apply valid_entry_iff. Qed.

(** C5, as the specification states it, fails: an entry with a mean of 10
    seconds is retained, and since the table holds hours rounded to 2
    decimals its row shows a mean time of 0.0, which is not greater than
    0. *)
Lemma bottleneck_row_shows_zero :
  valid_mean_time (Stats (<["mean" := PyFloat 10]> ∅)) 10 ∧
  bottleneck_analysis brief_transition =
    Some (Ranked [ {| From_ := "a"; To := "b"; Avg_Time_hours := 0 |} ]
                 [ {| From_ := "a"; To := "b"; Avg_Time_hours := 0 |} ]) ∧
  (Avg_Time_hours {| From_ := "a"; To := "b"; Avg_Time_hours := 0 |} <= 0)%Q.
Proof.
  split_and!; [|reflexivity|done].
  exists (PyFloat 10). split; [by constructor|by constructor].
Qed.

(** C5, amended. The rows of the bottleneck table are exactly the entries
    of the mapping whose mean time is a number strictly greater than 0, one
    row per such entry and in the order of the mapping; entries that are not
    numbers, zero or negative are skipped and nothing fails. The row of an
    entry shows its mean time in hours rounded to 2 decimals, which is
    never negative but can be 0. On scenario 4 only (e, f) is retained. *)
Theorem bottleneck_rows_positive :
  (∀ mean_times,
     transition <$> performance_data mean_times =
       fst <$> filter valid_entry mean_times ∧
     (∀ r, r ∈ performance_data mean_times →
        ∃ item x, item ∈ mean_times ∧ transition r = item.1 ∧
                  valid_mean_time item.2 x ∧
                  rounded_to_2_decimals (x / 3600) (Avg_Time_hours r) ∧
                  (0 <= Avg_Time_hours r)%Q) ∧
     ∃ out, bottleneck_analysis mean_times = Some out ∧
            match out with
            | Ranked perf_df _ => perf_df ≡ₚ performance_data mean_times
            | NoValidData => filter valid_entry mean_times = []
            end) ∧
  bottleneck_analysis scenario4 =
    Some (Ranked [ {| From_ := "e"; To := "f"; Avg_Time_hours := (2 # 25)%Q |} ]
                 [ {| From_ := "e"; To := "f"; Avg_Time_hours := (2 # 25)%Q |} ]).
Proof.
  split; [|reflexivity].
  intros mean_times. rewrite filter_valid_entry. split_and!.
  - unfold performance_data. rewrite performance_data_fold, app_nil_l.
    rewrite <- list_fmap_compose. apply list_fmap_ext. by intros _ [[??]?] _.
  - intros r (item & x & Hin & Hx & Hpos & Htr & Hr)%elem_of_performance_data.
    exists item, x. split_and!; [done..| | |].
    + by apply valid_mean_time_iff.
    + rewrite Hr. apply round2_rounded.
    + rewrite Hr. apply round2_nonneg. apply Qle_shift_div_l; [by vm_compute|]. lra.
  - destruct (bottleneck_analysis_spec mean_times) as (out & Hout & Hspec).
    exists out. split; [done|]. destruct out as [perf_df headline|].
    + apply Hspec.
    + unfold performance_data in Hspec.
      rewrite performance_data_fold, app_nil_l in Hspec. by apply fmap_nil_inv in Hspec.
Qed.

Lemma bottleneck_rows_positive_witness :
  let r := {| From_ := "e"; To := "f"; Avg_Time_hours := (2 # 25)%Q |} in
  r ∈ performance_data scenario4 ∧
  ∃ item x, item ∈ scenario4 ∧ transition r = item.1 ∧
            valid_mean_time item.2 x ∧
            rounded_to_2_decimals (x / 3600) (Avg_Time_hours r) ∧
            (0 <= Avg_Time_hours r)%Q.
Proof.
  assert (H : {| From_ := "e"; To := "f"; Avg_Time_hours := (2 # 25)%Q |}
              ∈ performance_data scenario4) by (apply list_elem_of_In; left; reflexivity).
  split; [exact H|].
  exact (proj1 (proj2 (proj1 bottleneck_rows_positive scenario4)) _ H).
Defined.

(** C6, as the specification states it, fails: rows with equal times are
    left in the order of the mapping, here (b, a) ahead of (a, b), and the
    table is ordered by the rounded hours, so an entry of 10 seconds stands
    ahead of one of 12 seconds. *)
Lemma bottleneck_ties_not_in_key_order :
  bottleneck_analysis close_times =
    Some (Ranked [ {| From_ := "b"; To := "a"; Avg_Time_hours := 0 |};
                   {| From_ := "a"; To := "b"; Avg_Time_hours := 0 |};
                   {| From_ := "c"; To := "d"; Avg_Time_hours := 0 |} ]
                 [ {| From_ := "b"; To := "a"; Avg_Time_hours := 0 |};
                   {| From_ := "a"; To := "b"; Avg_Time_hours := 0 |};
                   {| From_ := "c"; To := "d"; Avg_Time_hours := 0 |} ]) ∧
  mean_time <$> close_times.*2 = [Some 10%Q; Some 10%Q; Some 12%Q] ∧
  transition_compare ("b", "a") ("a", "b") = Gt ∧
  (10 < 12)%Q.
Proof. split_and!; reflexivity. Qed.

(** C6, amended. The bottleneck table holds the retained rows ordered
    non-increasing by their time in hours rounded to 2 decimals, the first
    5 rows of the table are the headline transitions, and when no row is
    retained the outcome is the warning; the order of rows with equal
    rounded hours is not fixed by their transition. *)
Theorem bottleneck_ranking (mean_times : list ((string * string) * TimeInfo)) :
  ∃ out, bottleneck_analysis mean_times = Some out ∧
         match out with
         | Ranked perf_df headline =>
             perf_df ≡ₚ performance_data mean_times ∧
             StronglySorted (λ r s, (Avg_Time_hours s <= Avg_Time_hours r)%Q) perf_df ∧
             headline = take 5 perf_df
         | NoValidData => performance_data mean_times = []
         end.
Proof. apply bottleneck_analysis_spec. Qed.

(** * Further properties *)

(** ** Rounding and aggregates *)

Lemma foldl_Qmin_le xs : ∀ x,
  (foldl Qmin x xs <= x)%Q ∧ Forall (λ y, (foldl Qmin x xs <= y)%Q) xs.
Proof.
  induction xs as [|y ys IH]; intros x; simpl.
  - split; [apply Qle_refl|constructor].
  - destruct (IH (Qmin x y)) as [H1 H2]. split_and!.
    + eapply Qle_trans; [exact H1|apply Q.le_min_l].
    + constructor; [|done]. eapply Qle_trans; [exact H1|apply Q.le_min_r].
Qed.

Lemma foldl_Qmax_ge xs : ∀ x,
  (x <= foldl Qmax x xs)%Q ∧ Forall (λ y, (y <= foldl Qmax x xs)%Q) xs.
Proof.
  induction xs as [|y ys IH]; intros x; simpl.
  - split; [apply Qle_refl|constructor].
  - destruct (IH (Qmax x y)) as [H1 H2]. split_and!.
    + eapply Qle_trans; [apply Q.le_max_l|exact H1].
    + constructor; [|done]. eapply Qle_trans; [apply Q.le_max_r|exact H1].
Qed.

Lemma Qmin_list_le xs : Forall (λ y, (Qmin_list xs <= y)%Q) xs.
Proof.
  destruct xs as [|x xs]; [constructor|]. simpl.
  destruct (foldl_Qmin_le xs x) as [H1 H2]. by constructor.
Qed.

Lemma Qmax_list_ge xs : Forall (λ y, (y <= Qmax_list xs)%Q) xs.
Proof.
  destruct xs as [|x xs]; [constructor|]. simpl.
  destruct (foldl_Qmax_ge xs x) as [H1 H2]. by constructor.
Qed.

Lemma Qsum_lower (b : Q) xs :
  Forall (λ x, (b <= x)%Q) xs → (Qnat (length xs) * b <= Qsum xs)%Q.
Proof.
  induction 1 as [|x xs Hx _ IH]; cbn [length Qsum foldr].
  - change (Qnat 0) with 0%Q. lra.
  - rewrite Qnat_S. fold (Qsum xs).
    assert (E : ((Qnat (length xs) + 1) * b == Qnat (length xs) * b + b)%Q) by ring.
    rewrite E. lra.
Qed.

Lemma Qsum_upper (b : Q) xs :
  Forall (λ x, (x <= b)%Q) xs → (Qsum xs <= Qnat (length xs) * b)%Q.
Proof.
  induction 1 as [|x xs Hx _ IH]; cbn [length Qsum foldr].
  - change (Qnat 0) with 0%Q. lra.
  - rewrite Qnat_S. fold (Qsum xs).
    assert (E : ((Qnat (length xs) + 1) * b == Qnat (length xs) * b + b)%Q) by ring.
    rewrite E. lra.
Qed.

Lemma Qnat_pos n : 0 < n → (0 < Qnat n)%Q.
Proof. intros H. unfold Qnat, Qlt. simpl. lia. Qed.

Lemma mean_lower (b : Q) xs :
  xs ≠ [] → Forall (λ x, (b <= x)%Q) xs → (b <= mean xs)%Q.
Proof.
  intros Hne Hall. unfold mean. fold (Qnat (length xs)).
  apply Qle_shift_div_l.
  - apply Qnat_pos. destruct xs; [done|simpl; lia].
  - rewrite Qmult_comm. by apply Qsum_lower.
Qed.

Lemma mean_upper (b : Q) xs :
  xs ≠ [] → Forall (λ x, (x <= b)%Q) xs → (mean xs <= b)%Q.
Proof.
  intros Hne Hall. unfold mean. fold (Qnat (length xs)).
  apply Qle_shift_div_r.
  - apply Qnat_pos. destruct xs; [done|simpl; lia].
  - rewrite Qmult_comm. by apply Qsum_upper.
Qed.

Lemma hours_mono (x y : Q) : (x <= y)%Q → (round2 (x / 3600) <= round2 (y / 3600))%Q.
Proof.
  intros H. apply round2_mono. unfold Qdiv. apply Qmult_le_compat_r; [done|].
  by vm_compute.
Qed.

Lemma displayed_min_avg_max xs :
  xs ≠ [] →
  (round2 (Qmin_list xs / 3600) <= round2 (mean xs / 3600))%Q ∧
  (round2 (mean xs / 3600) <= round2 (Qmax_list xs / 3600))%Q.
Proof.
  intros Hne. split; apply hours_mono.
  - apply mean_lower; [done|apply Qmin_list_le].
  - apply mean_upper; [done|apply Qmax_list_ge].
Qed.

(** ** Case durations *)

(** X1. Whenever there is at least one case duration, the three metrics are
    numbers of hours, none is the sentinel, and the displayed values are
    ordered: minimum, then average, then maximum. *)
Theorem case_metrics_ordered (case_durations : list Q) :
  case_durations ≠ [] →
  ∃ avg lo hi,
    case_duration_metrics case_durations =
      {| avg_case_duration := Hours avg;
         min_case_duration := Hours lo;
         max_case_duration := Hours hi |} ∧
    (lo <= avg)%Q ∧ (avg <= hi)%Q.
Proof.
  intros Hne. destruct (displayed_min_avg_max case_durations Hne) as [H1 H2].
  destruct case_durations as [|d ds]; [done|].
  do 3 eexists. split; [reflexivity|]. by split.
Qed.

Lemma case_metrics_ordered_witness :
  [1800%Q; 7200%Q] ≠ [] ∧
  ∃ avg lo hi,
    case_duration_metrics [1800%Q; 7200%Q] =
      {| avg_case_duration := Hours avg;
         min_case_duration := Hours lo;
         max_case_duration := Hours hi |} ∧
    (lo <= avg)%Q ∧ (avg <= hi)%Q.
Proof.
  assert (H : [1800%Q; 7200%Q] ≠ []) by discriminate.
  split; [exact H|]. exact (case_metrics_ordered _ H).
Defined.

(** ** Activity timing *)

(** X2. The timing loop completes exactly on the logs whose events all
    carry a timestamp; on any other log it stops with the missing key. *)
Theorem activity_timing_completes_iff (log : EventLog) :
  is_Some (activity_timing log) ↔ timestamped log.
Proof.
  split.
  - intros [m Hm]. by eapply for_each_timing_trace_Some.
  - intros Hts. destruct (activity_timing_spec log Hts) as (m & Hm & _). by exists m.
Qed.

Lemma total_seconds_nonneg (d : Z) : (0 ≤ d)%Z → (0 <= total_seconds d)%Q.
Proof.
  intros H. unfold total_seconds. rewrite Qred_correct. unfold Qle. simpl. lia.
Qed.

Lemma samples_after_nonneg prev evs :
  StronglySorted (λ e f, (ts_of e ≤ ts_of f)%Z) (prev :: evs) →
  Forall (λ s, (0 <= s.2)%Q) (samples_after prev evs).
Proof.
  revert prev. induction evs as [|e evs IH]; intros prev Hs; simpl; [constructor|].
  apply StronglySorted_inv in Hs as [Hs Hall]. constructor.
  - simpl. apply total_seconds_nonneg. apply Forall_inv in Hall. lia.
  - by apply IH.
Qed.

Lemma in_time_order_sorted evs :
  StronglySorted (λ e f, (ts_of e ≤ ts_of f)%Z) (in_time_order evs).
Proof.
  eapply StronglySorted_impl; [|apply stable_sort_sorted].
  - cbn beta. intros e f. apply Z.leb_le.
  - intros e f H. apply Z.leb_gt in H. apply Z.leb_le. lia.
  - intros e f g H1 H2. apply Z.leb_le in H1, H2. apply Z.leb_le. lia.
Qed.

Lemma elapsed_samples_nonneg evs :
  Forall (λ s, (0 <= s.2)%Q) (elapsed_samples (in_time_order evs)).
Proof.
  pose proof (in_time_order_sorted evs) as Hs. unfold elapsed_samples.
  destruct (in_time_order evs) as [|e evs']; [constructor|].
  by apply samples_after_nonneg.
Qed.

Lemma duration_samples_nonneg log a :
  Forall (λ d, (0 <= d)%Q) (duration_samples log a).
Proof.
  unfold duration_samples. apply Forall_fmap, Forall_forall.
  intros s [_ Hin]%list_elem_of_filter. revert s Hin. apply Forall_forall.
  induction log as [|tr log IH]; [constructor|].
  rewrite bind_cons. apply Forall_app. split; [apply elapsed_samples_nonneg|done].
Qed.

(** X3. No duration the timing loop stores is negative, whatever the order
    in which the events of a trace are stored: the loop sorts each trace by
    timestamp before it takes differences. *)
Theorem stored_durations_nonneg (log : EventLog) (m : gmap string TimingEntry)
    (a : string) (entry : TimingEntry) :
  activity_timing log = Some m →
  m !! a = Some entry →
  Forall (λ d, (0 <= d)%Q) (durations entry).
Proof.
  intros Hrun Hm.
  assert (Hts : timestamped log) by (by eapply for_each_timing_trace_Some).
  destruct (activity_timing_spec log Hts) as (m' & Hrun' & Hspec).
  rewrite Hrun in Hrun'. injection Hrun' as <-.
  rewrite Hspec in Hm. case_decide; [|done]. injection Hm as <-.
  apply duration_samples_nonneg.
Qed.

Lemma stored_durations_nonneg_witness :
  let log := [ {| case_name := "A";
                  events := [ {| concept_name := "y"; time_timestamp := Some (60 * second)%Z |};
                              {| concept_name := "x"; time_timestamp := Some 0%Z |} ] |} ] in
  ∃ m entry, activity_timing log = Some m ∧ m !! "y" = Some entry ∧
             Forall (λ d, (0 <= d)%Q) (durations entry).
Proof.
  intros log. eexists _, _.
  assert (H1 : activity_timing log = Some (<["x" := {| durations := [] |}]>
                                             (<["y" := {| durations := [60%Q] |}]> ∅)))
    by (by vm_compute).
  assert (H2 : (<["x" := {| durations := [] |}]>
                  (<["y" := {| durations := [60%Q] |}]> (∅ : gmap string TimingEntry)))
               !! "y" = Some {| durations := [60%Q] |}) by (by vm_compute).
  split; [exact H1|]. split; [exact H2|].
  exact (stored_durations_nonneg log _ "y" _ H1 H2).
Defined.

(** ** Activity table *)

Lemma samples_after_labels prev evs :
  (samples_after prev evs).*1 = concept_name <$> evs.
Proof.
  revert prev. induction evs as [|e evs IH]; intros prev; simpl; [done|].
  by rewrite IH.
Qed.

Lemma occurrences_cons a b labels :
  occurrences a (b :: labels) = (if decide (b = a) then 1 else 0) + occurrences a labels.
Proof. unfold occurrences. rewrite filter_cons. by case_decide. Qed.

Lemma occurrences_app a l1 l2 :
  occurrences a (l1 ++ l2) = occurrences a l1 + occurrences a l2.
Proof. unfold occurrences. by rewrite filter_app, length_app. Qed.

Lemma length_filter_fst {B} (a : string) (l : list (string * B)) :
  length (filter (λ s, s.1 = a) l) = occurrences a l.*1.
Proof.
  unfold occurrences. induction l as [|[b v] l IH]; [done|].
  rewrite fmap_cons, !filter_cons. simpl. case_decide; simpl; by rewrite IH.
Qed.

Lemma elapsed_samples_count a evs :
  length (filter (λ s, s.1 = a) (elapsed_samples evs)) +
  (if decide (concept_name <$> head evs = Some a) then 1 else 0) =
  occurrences a (concept_name <$> evs).
Proof.
  destruct evs as [|e evs]; [done|].
  cbn [elapsed_samples head fmap option_fmap option_map].
  rewrite length_filter_fst, samples_after_labels, fmap_cons, occurrences_cons.
  destruct (decide (concept_name e = a)) as [->|Hne].
  - rewrite decide_True by done. lia.
  - rewrite decide_False by congruence. lia.
Qed.

Lemma duration_samples_count log a :
  length (duration_samples log a) + trace_openings log a =
  occurrences a (log_activities log).
Proof.
  unfold duration_samples, trace_openings, log_activities. rewrite length_fmap.
  induction log as [|tr log IH]; [done|].
  rewrite !bind_cons, filter_app, length_app, occurrences_app, filter_cons.
  pose proof (elapsed_samples_count a (in_time_order (events tr))) as Htr.
  assert (Hperm : occurrences a (concept_name <$> in_time_order (events tr)) =
                  occurrences a (concept_name <$> events tr)).
  { unfold occurrences, in_time_order. by rewrite stable_sort_perm. }
  rewrite Hperm in Htr.
  destruct (decide (concept_name <$> head (in_time_order (events tr)) = Some a));
    simpl; lia.
Qed.

Lemma activity_table_inv log rows :
  activity_table log = Some rows →
  timestamped log ∧
  ∃ m, activity_timing log = Some m ∧
       activity_data (pm4py.get_event_attribute_values log) m = Some rows.
Proof.
  unfold activity_table. destruct (activity_timing log) as [m|] eqn:Hm; [|done].
  simpl. intros Hdata. split; [by eapply for_each_timing_trace_Some|]. by exists m.
Qed.

Lemma activity_row_inv counts m a n row :
  activity_row counts m (a, n) = Some row →
  ∃ entry,
    m !! a = Some entry ∧
    row = {| Activity := a;
             Count := n;
             Percentage := round2 (Qnat n / Qnat (count_total counts) * 100);
             Min_Duration_hours :=
               match durations entry with
               | [] => 0%Q
               | _ => round2 (Qmin_list (durations entry) / 3600)
               end;
             Avg_Duration_hours :=
               match durations entry with
               | [] => 0%Q
               | _ => round2 (mean (durations entry) / 3600)
               end;
             Max_Duration_hours :=
               match durations entry with
               | [] => 0%Q
               | _ => round2 (Qmax_list (durations entry) / 3600)
               end;
             Sample_Size := length (durations entry) |}.
Proof.
  unfold activity_row. destruct (m !! a) as [entry|]; simpl; [|done].
  intros [= <-]. by exists entry.
Qed.

Lemma activity_table_row log rows row :
  activity_table log = Some rows → row ∈ rows →
  ∃ m n entry,
    activity_timing log = Some m ∧
    (Activity row, n) ∈ pm4py.get_event_attribute_values log ∧
    m !! Activity row = Some entry ∧
    activity_row (pm4py.get_event_attribute_values log) m (Activity row, n) = Some row.
Proof.
  intros (Hts & m & Hrun & Hdata)%activity_table_inv [j Hj]%list_elem_of_lookup.
  unfold activity_data in Hdata. apply mapM_Some in Hdata.
  destruct (Forall2_lookup_r _ _ _ _ _ Hdata Hj) as ([a n] & Hitem & Hrow).
  destruct (activity_row_inv _ _ _ _ _ Hrow) as (entry & Hentry & Heq).
  assert (Ha : Activity row = a) by (by rewrite Heq).
  exists m, n, entry. rewrite Ha. split_and!; [done| |done..].
  by eapply list_elem_of_lookup_2.
Qed.

(** X4. In every row of the activity table the sample size plus the number
    of traces that the activity opens (in time order) equals the count: each
    event contributes one duration sample except the first event of its
    trace. *)
Theorem sample_size_plus_openings (log : EventLog) (rows : list ActivityRow)
    (row : ActivityRow) :
  activity_table log = Some rows →
  row ∈ rows →
  Sample_Size row + trace_openings log (Activity row) = Count row.
Proof.
  intros Htable Hin.
  destruct (activity_table_row log rows row Htable Hin)
    as (m & n & entry & Hrun & Hcount & Hentry & Hrow).
  apply activity_table_inv in Htable as [Hts _].
  destruct (activity_timing_spec log Hts) as (m' & Hrun' & Hspec).
  rewrite Hrun in Hrun'. injection Hrun' as <-.
  destruct (activity_counts_spec log) as (_ & Hkeys & Hocc & _).
  destruct (activity_row_inv _ _ _ _ _ Hrow) as (entry' & Hentry' & ->). simpl in *.
  rewrite Hentry in Hentry'. injection Hentry' as <-.
  rewrite Hspec in Hentry. case_decide; [|done]. injection Hentry as <-. simpl.
  rewrite (Hocc _ _ Hcount). apply duration_samples_count.
Qed.

Lemma sample_size_plus_openings_witness :
  let row := {| Activity := "a"; Count := 1; Percentage := 50;
                Min_Duration_hours := 0; Avg_Duration_hours := 0;
                Max_Duration_hours := 0; Sample_Size := 1 |} in
  let rows := [ {| Activity := "b"; Count := 1; Percentage := 50;
                   Min_Duration_hours := 0; Avg_Duration_hours := 0;
                   Max_Duration_hours := 0; Sample_Size := 0 |}; row ] in
  activity_table tied_log = Some rows ∧ row ∈ rows ∧
  Sample_Size row + trace_openings tied_log (Activity row) = Count row.
Proof.
  intros row rows.
  assert (H1 : activity_table tied_log = Some rows) by reflexivity.
  assert (H2 : row ∈ rows) by (apply list_elem_of_In; right; left; reflexivity).
  split; [exact H1|]. split; [exact H2|].
  exact (sample_size_plus_openings tied_log rows row H1 H2).
Defined.

Lemma count_le_total counts a n :
  (a, n) ∈ counts → n ≤ count_total counts.
Proof.
  unfold count_total. induction counts as [|[b k] counts IH]; [by intros ?%elem_of_nil|].
  rewrite fmap_cons. simpl. intros [[= -> ->]|Hin]%elem_of_cons; [lia|].
  specialize (IH Hin). lia.
Qed.

Lemma share_bounds n t :
  n ≤ t → (0 <= Qnat n / Qnat t * 100)%Q ∧ (Qnat n / Qnat t * 100 <= 100)%Q.
Proof.
  intros Hle.
  assert (Hn : (0 <= Qnat n)%Q) by (unfold Qnat, Qle; simpl; lia).
  destruct (decide (t = 0)) as [->|Hpos].
  - assert (n = 0) as -> by lia. by vm_compute.
  - assert (Ht : (0 < Qnat t)%Q) by (apply Qnat_pos; lia).
    assert (Hq : (0 <= Qnat n / Qnat t)%Q ∧ (Qnat n / Qnat t <= 1)%Q).
    { split.
      - apply Qle_shift_div_l; [done|]. lra.
      - apply Qle_shift_div_r; [done|]. rewrite Qmult_1_l.
        unfold Qnat. rewrite <- Zle_Qle. lia. }
    destruct Hq. split; lra.
Qed.

(** X5. Every percentage of the activity table lies between 0 and 100. *)
Theorem percentage_within_bounds (log : EventLog) (rows : list ActivityRow)
    (row : ActivityRow) :
  activity_table log = Some rows →
  row ∈ rows →
  (0 <= Percentage row)%Q ∧ (Percentage row <= 100)%Q.
Proof.
  intros Htable Hin.
  destruct (activity_table_row log rows row Htable Hin)
    as (m & n & entry & _ & Hcount & _ & Hrow).
  apply activity_row_fields in Hrow as (_ & _ & ->).
  destruct (share_bounds n _ (count_le_total _ _ _ Hcount)) as [H0 H100].
  split.
  - by apply round2_nonneg.
  - apply (round2_mono _ 100) in H100. exact H100.
Qed.

Lemma percentage_within_bounds_witness :
  let row := {| Activity := "a"; Count := 1; Percentage := 50;
                Min_Duration_hours := 0; Avg_Duration_hours := 0;
                Max_Duration_hours := 0; Sample_Size := 1 |} in
  let rows := [ {| Activity := "b"; Count := 1; Percentage := 50;
                   Min_Duration_hours := 0; Avg_Duration_hours := 0;
                   Max_Duration_hours := 0; Sample_Size := 0 |}; row ] in
  activity_table tied_log = Some rows ∧ row ∈ rows ∧
  (0 <= Percentage row)%Q ∧ (Percentage row <= 100)%Q.
Proof.
  intros row rows.
  assert (H1 : activity_table tied_log = Some rows) by reflexivity.
  assert (H2 : row ∈ rows) by (apply list_elem_of_In; right; left; reflexivity).
  split; [exact H1|]. split; [exact H2|].
  exact (percentage_within_bounds tied_log rows row H1 H2).
Defined.

Lemma activity_timing_entry log m a entry :
  activity_timing log = Some m → m !! a = Some entry →
  durations entry = duration_samples log a.
Proof.
  intros Hrun Hm.
  assert (Hts : timestamped log) by (by eapply for_each_timing_trace_Some).
  destruct (activity_timing_spec log Hts) as (m' & Hrun' & Hspec).
  rewrite Hrun in Hrun'. injection Hrun' as <-.
  rewrite Hspec in Hm. case_decide; [|done]. by injection Hm as <-.
Qed.

Lemma foldl_Qmin_glb (b : Q) xs : ∀ x,
  (b <= x)%Q → Forall (λ y, (b <= y)%Q) xs → (b <= foldl Qmin x xs)%Q.
Proof.
  induction xs as [|y ys IH]; intros x Hx Hall; simpl; [done|].
  apply Forall_cons in Hall as [Hy Hall]. apply IH; [|done]. by apply Q.min_glb.
Qed.

Lemma Qmin_list_glb (b : Q) xs :
  xs ≠ [] → Forall (λ y, (b <= y)%Q) xs → (b <= Qmin_list xs)%Q.
Proof.
  destruct xs as [|x xs]; [done|]. intros _ [Hx Hall]%Forall_cons.
  by apply foldl_Qmin_glb.
Qed.

(** X6. In every row of the activity table the three duration columns are
    ordered, 0 <= minimum <= average <= maximum, and all three are 0 when
    the activity has no duration sample. *)
Theorem duration_columns_ordered (log : EventLog) (rows : list ActivityRow)
    (row : ActivityRow) :
  activity_table log = Some rows →
  row ∈ rows →
  (0 <= Min_Duration_hours row)%Q ∧
  (Min_Duration_hours row <= Avg_Duration_hours row)%Q ∧
  (Avg_Duration_hours row <= Max_Duration_hours row)%Q ∧
  (Sample_Size row = 0 →
   Min_Duration_hours row = 0%Q ∧ Avg_Duration_hours row = 0%Q ∧
   Max_Duration_hours row = 0%Q).
Proof.
  intros Htable Hin.
  destruct (activity_table_row log rows row Htable Hin)
    as (m & n & entry & Hrun & _ & Hentry & Hrow).
  pose proof (duration_samples_nonneg log (Activity row)) as Hnonneg.
  rewrite <- (activity_timing_entry _ _ _ _ Hrun Hentry) in Hnonneg.
  destruct (activity_row_inv _ _ _ _ _ Hrow) as (entry' & Hentry' & ->). simpl in *.
  rewrite Hentry in Hentry'. injection Hentry' as <-.
  destruct (durations entry) as [|d ds] eqn:Hds.
  - split_and!; [by vm_compute..|done].
  - destruct (displayed_min_avg_max (d :: ds)) as [H1 H2]; [done|].
    split_and!; [|done..|by simpl].
    apply round2_nonneg. apply Qle_shift_div_l; [by vm_compute|].
    rewrite Qmult_0_l. by apply Qmin_list_glb.
Qed.

Lemma duration_columns_ordered_witness :
  let row := {| Activity := "a"; Count := 1; Percentage := 50;
                Min_Duration_hours := 0; Avg_Duration_hours := 0;
                Max_Duration_hours := 0; Sample_Size := 1 |} in
  let rows := [ {| Activity := "b"; Count := 1; Percentage := 50;
                   Min_Duration_hours := 0; Avg_Duration_hours := 0;
                   Max_Duration_hours := 0; Sample_Size := 0 |}; row ] in
  activity_table tied_log = Some rows ∧ row ∈ rows ∧
  (0 <= Min_Duration_hours row)%Q ∧
  (Min_Duration_hours row <= Avg_Duration_hours row)%Q ∧
  (Avg_Duration_hours row <= Max_Duration_hours row)%Q ∧
  (Sample_Size row = 0 →
   Min_Duration_hours row = 0%Q ∧ Avg_Duration_hours row = 0%Q ∧
   Max_Duration_hours row = 0%Q).
Proof.
  intros row rows.
  assert (H1 : activity_table tied_log = Some rows) by reflexivity.
  assert (H2 : row ∈ rows) by (apply list_elem_of_In; right; left; reflexivity).
  split; [exact H1|]. split; [exact H2|].
  exact (duration_columns_ordered tied_log rows row H1 H2).
Defined.

Lemma log_activities_nil log :
  log_activities log = [] ↔ Forall (λ tr, events tr = []) log.
Proof.
  unfold log_activities. induction log as [|tr log IH]; [by split; [constructor|]|].
  rewrite bind_cons, Forall_cons, <- IH. split.
  - intros [H1 H2]%app_eq_nil. split; [|done]. by apply fmap_nil_inv in H1.
  - intros [-> ->]. done.
Qed.

Lemma eventless_timestamped log : log_activities log = [] → timestamped log.
Proof.
  intros H%log_activities_nil. eapply Forall_impl; [exact H|].
  intros tr ->. constructor.
Qed.

Lemma activity_table_nil_iff log rows :
  activity_table log = Some rows → (rows = [] ↔ log_activities log = []).
Proof.
  intros (Hts & m & Hrun & Hdata)%activity_table_inv.
  apply activity_data_rows in Hdata.
  destruct (activity_counts_spec log) as (_ & Hkeys & _).
  split.
  - intros ->. apply Forall2_nil_inv_r in Hdata.
    destruct (log_activities log) as [|a l]; [done|].
    assert (Ha : a ∈ (pm4py.get_event_attribute_values log).*1) by (apply Hkeys; left).
    rewrite Hdata in Ha. by apply elem_of_nil in Ha.
  - intros Hnil. destruct rows as [|row rows]; [done|].
    destruct (pm4py.get_event_attribute_values log) as [|[a n] counts] eqn:Hc;
      [by apply Forall2_nil_cons_inv in Hdata|].
    assert (Ha : a ∈ log_activities log) by (apply Hkeys; left).
    rewrite Hnil in Ha. by apply elem_of_nil in Ha.
Qed.

(** X7. On a log without any event the timing loop and the table loop both
    succeed with nothing to show, and the sort of line 123 then raises: the
    activity analysis ends in the error branch, not in an empty table. *)
Theorem activity_analysis_of_eventless_log (log : EventLog) :
  log_activities log = [] →
  activity_table log = Some [] ∧ activity_analysis log = None.
Proof.
  intros Hnil.
  destruct (activity_table_ok log (eventless_timestamped log Hnil))
    as (m & rows & _ & _ & _ & Htable).
  assert (rows = []) as -> by (by eapply activity_table_nil_iff).
  split; [done|]. by rewrite activity_analysis_table, Htable.
Qed.

Lemma activity_analysis_of_eventless_log_witness :
  let log := [ {| case_name := "A"; events := [] |} ] in
  log_activities log = [] ∧ activity_table log = Some [] ∧ activity_analysis log = None.
Proof.
  intros log. assert (H : log_activities log = []) by reflexivity.
  split; [exact H|]. exact (activity_analysis_of_eventless_log log H).
Defined.

Lemma activity_analysis_is_Some_iff log :
  timestamped log → (is_Some (activity_analysis log) ↔ log_activities log ≠ []).
Proof.
  intros Hts. destruct (activity_table_ok log Hts) as (m & rows & _ & _ & _ & Htable).
  pose proof (activity_table_nil_iff log rows Htable) as Hnil.
  rewrite activity_analysis_table, Htable. simpl. unfold activity_df.
  split.
  - intros [df Hdf] Hn. apply Hnil in Hn. by rewrite Hn in Hdf.
  - intros Hne. apply sort_values_desc_is_Some. intros Hr. by apply Hne, Hnil.
Qed.

Lemma trace_builder_case_names df c :
  c ∈ case_name <$> trace_builder df ↔ 2 ≤ case_size df c.
Proof.
  unfold trace_builder. rewrite filter_case_size_2. unfold pm4py.format_dataframe.
  set (sorted := stable_sort row_leb df).
  assert (Hsize : ∀ c, case_size sorted c = case_size df c).
  { intros c'. apply case_size_perm, stable_sort_perm. }
  destruct (to_event_log_fold
              (filter (λ r, 2 ≤ case_size sorted (row_case r)) sorted) [])
    as (_ & Hnames & _).
  fold (log_converter.to_event_log
          (filter (λ r, 2 ≤ case_size sorted (row_case r)) sorted)) in Hnames.
  rewrite Hnames, elem_of_nil. split.
  - intros [[]|(r & -> & [Hge _]%list_elem_of_filter)%list_elem_of_fmap].
    by rewrite <- Hsize.
  - intros Hge. right. rewrite <- Hsize in Hge.
    assert (Hr : ∃ r, r ∈ filter (λ r, row_case r = c) sorted).
    { unfold case_size in Hge.
      destruct (filter (λ r, row_case r = c) sorted) as [|r l] eqn:Hf;
        [simpl in Hge; lia|].
      exists r. left. }
    destruct Hr as [r [Hc Hin]%list_elem_of_filter].
    apply list_elem_of_fmap. exists r. split; [done|].
    apply list_elem_of_filter. by rewrite Hc.
Qed.

Lemma trace_builder_events_nonempty df tr :
  tr ∈ trace_builder df → events tr ≠ [].
Proof.
  intros [Hc Hev]%elem_of_to_event_log.
  apply list_elem_of_fmap in Hc as (r & Hr & Hin).
  rewrite Hev. intros Hnil%fmap_nil_inv.
  assert (Hr' : r ∈ filter (λ s, row_case s = case_name tr)
                  (pm4py.filter_case_size (pm4py.format_dataframe df) 2 None)).
  { apply list_elem_of_filter. by split. }
  rewrite Hnil in Hr'. by apply elem_of_nil in Hr'.
Qed.

(** X8. Run on the log the trace builder returns, the activity analysis
    yields its table exactly when some case of the data frame has at least
    2 rows; when every case is smaller, the log is empty and the analysis
    ends in the error branch. *)
Theorem activity_analysis_after_trace_builder (df : DataFrame) :
  is_Some (activity_analysis (trace_builder df)) ↔ ∃ c, 2 ≤ case_size df c.
Proof.
  rewrite (activity_analysis_is_Some_iff _ (trace_builder_timestamped df)).
  rewrite log_activities_nil. split.
  - intros Hne. destruct (trace_builder df) as [|tr log] eqn:Hlog; [by destruct Hne|].
    exists (case_name tr). apply trace_builder_case_names. rewrite Hlog. left.
  - intros [c Hc] Hall. apply trace_builder_case_names in Hc.
    apply list_elem_of_fmap in Hc as (tr & _ & Hin).
    eapply Forall_forall in Hall; [|exact Hin].
    by apply (trace_builder_events_nonempty df tr).
Qed.

(** ** Variant labels *)

Lemma string_app_cons c (s t : string) : (String c s ++ t)%string = String c (s ++ t)%string.
Proof. reflexivity. Qed.

Lemma string_app_nil_l (t : string) : (EmptyString ++ t)%string = t.
Proof. reflexivity. Qed.

Lemma string_app_nil_r (s : string) : (s ++ EmptyString)%string = s.
Proof.
  induction s as [|c s IH]; [done|]. by rewrite string_app_cons, IH.
Qed.

Lemma string_app_assoc (s t u : string) : ((s ++ t) ++ u)%string = (s ++ (t ++ u))%string.
Proof.
  induction s as [|c s IH]; [done|]. by rewrite !string_app_cons, IH.
Qed.

Lemma prefix_empty (s : string) : String.prefix EmptyString s = true.
Proof. by destruct s. Qed.

Lemma split_from_separator acc s :
  split_from arrow 0 acc (arrow ++ s)%string = acc :: split_from arrow 0 EmptyString s.
Proof. destruct s; reflexivity. Qed.

Lemma prefix_cons a b (s t : string) :
  String.prefix (String a s) (String b t) =
  if Ascii.ascii_dec a b then String.prefix s t else false.
Proof. reflexivity. Qed.

Ltac prefix_cases :=
  repeat (rewrite ?prefix_cons, ?prefix_empty in *;
          match goal with
          | |- context [Ascii.ascii_dec ?x ?y] => destruct (Ascii.ascii_dec x y); try done
          | H : context [Ascii.ascii_dec ?x ?y] |- _ =>
              destruct (Ascii.ascii_dec x y); try done
          end).

Lemma arrow_not_across l rest :
  has_arrow l = false → after_label rest → String.prefix "→" (l ++ rest)%string = false.
Proof.
  intros Hl Hrest.
  destruct l as [|a [|b [|c l]]]; rewrite ?string_app_cons, ?string_app_nil_l.
  - destruct Hrest as [->|[s ->]]; reflexivity.
  - destruct Hrest as [->|[s ->]]; [|unfold arrow; rewrite string_app_cons];
      prefix_cases; done.
  - destruct Hrest as [->|[s ->]]; [|unfold arrow; rewrite string_app_cons];
      prefix_cases; done.
  - cbn [has_arrow] in Hl. apply orb_false_iff in Hl as [Hl _].
    prefix_cases; done.
Qed.

Lemma separator_not_in_label c l rest :
  has_arrow (String c l) = false → after_label rest →
  String.prefix arrow (String c (l ++ rest))%string = false.
Proof.
  intros Hl Hrest. cbn [has_arrow] in Hl. apply orb_false_iff in Hl as [_ Hl].
  pose proof (arrow_not_across l rest Hl Hrest) as Hp.
  unfold arrow. destruct (l ++ rest)%string as [|a [|b [|d t]]];
    prefix_cases; done.
Qed.

Lemma split_from_label l : ∀ acc rest,
  has_arrow l = false → after_label rest →
  split_from arrow 0 acc (l ++ rest)%string = split_from arrow 0 (acc ++ l)%string rest.
Proof.
  induction l as [|c l IH]; intros acc rest Hl Hrest.
  - by rewrite string_app_nil_l, string_app_nil_r.
  - rewrite string_app_cons. cbn [split_from]. rewrite separator_not_in_label by done.
    rewrite IH; [|simpl in Hl; by apply orb_false_iff in Hl as [_ ?]|done].
    by rewrite string_app_assoc.
Qed.

Lemma split_from_concat labels : ∀ l acc,
  Forall (λ s, has_arrow s = false) (l :: labels) →
  split_from arrow 0 acc (String.concat arrow (l :: labels)) = (acc ++ l)%string :: labels.
Proof.
  induction labels as [|l2 labels IH]; intros l acc [Hl Hall]%Forall_cons.
  - simpl. rewrite <- (string_app_nil_r l) at 1.
    rewrite split_from_label; [done..|by left].
  - change (String.concat arrow (l :: l2 :: labels))
      with (l ++ (arrow ++ String.concat arrow (l2 :: labels)))%string.
    rewrite split_from_label; [|done|right; by eexists].
    rewrite split_from_separator, IH by done. done.
Qed.

(** X9. Joining a non-empty tuple of labels with the separator and
    splitting the result gives the tuple back, provided no label contains
    the arrow character. *)
Theorem split_join_round_trip (labels : list string) :
  labels ≠ [] →
  Forall (λ s, has_arrow s = false) labels →
  split arrow (String.concat arrow labels) = labels.
Proof.
  intros Hne Hall. destruct labels as [|l labels]; [done|].
  unfold split. rewrite split_from_concat by done.
  by rewrite string_app_nil_l.
Qed.

Lemma split_join_round_trip_witness :
  ["Check ticket"; "Pay"; "Check ticket"] ≠ [] ∧
  Forall (λ s, has_arrow s = false) ["Check ticket"; "Pay"; "Check ticket"] ∧
  split arrow (String.concat arrow ["Check ticket"; "Pay"; "Check ticket"]) =
    ["Check ticket"; "Pay"; "Check ticket"].
Proof.
  assert (H1 : ["Check ticket"; "Pay"; "Check ticket"] ≠ []) by discriminate.
  assert (H2 : Forall (λ s, has_arrow s = false) ["Check ticket"; "Pay"; "Check ticket"])
    by (repeat constructor).
  split; [exact H1|]. split; [exact H2|]. exact (split_join_round_trip _ H1 H2).
Defined.

(** X10. When the selected entry of the ['Variant'] column stands for a
    non-empty variant none of whose labels contains the arrow character,
    the filtered log is exactly the traces of that variant, in log order. *)
Theorem filtered_log_exact (event_log : EventLog) (key : list string) :
  key ≠ [] →
  Forall (λ s, has_arrow s = false) key →
  filtered_log event_log (String.concat arrow key) =
  filter (λ tr, variant_of tr = key) event_log.
Proof.
  intros Hne Hall. unfold filtered_log, pm4py.filter_variants, split.
  destruct key as [|l key]; [done|].
  rewrite split_from_concat, string_app_nil_l by done.
  apply list_filter_iff. intros tr. by rewrite list_elem_of_singleton.
Qed.

Lemma filtered_log_exact_witness :
  ["a"; "b"; "c"] ≠ [] ∧
  Forall (λ s, has_arrow s = false) ["a"; "b"; "c"] ∧
  filtered_log arrow_log (String.concat arrow ["a"; "b"; "c"]) =
  filter (λ tr, variant_of tr = ["a"; "b"; "c"]) arrow_log.
Proof.
  assert (H1 : ["a"; "b"; "c"] ≠ []) by discriminate.
  assert (H2 : Forall (λ s, has_arrow s = false) ["a"; "b"; "c"]) by (repeat constructor).
  split; [exact H1|]. split; [exact H2|]. exact (filtered_log_exact arrow_log _ H1 H2).
Defined.

(** ** Bottleneck table *)

(** X11. The bottleneck section shows the warning exactly when no entry of
    the mapping has a positive numeric mean; otherwise it shows a table with
    one row per such entry, and the headline holds its first 5 rows, or all
    of them when there are fewer. *)
Theorem bottleneck_outcome (mean_times : list ((string * string) * TimeInfo)) :
  ∃ out, bottleneck_analysis mean_times = Some out ∧
         (out = NoValidData ↔ Forall (λ item, ¬ positive_mean item) mean_times) ∧
         (∀ perf_df headline, out = Ranked perf_df headline →
            length perf_df = length (filter positive_mean mean_times) ∧
            length headline = length perf_df `min` 5 ∧
            headline ≠ []).
Proof.
  destruct (bottleneck_analysis_spec mean_times) as (out & Hout & Hspec).
  assert (Hlen : length (performance_data mean_times) =
                 length (filter positive_mean mean_times)).
  { unfold performance_data. by rewrite performance_data_fold, app_nil_l, length_fmap. }
  assert (Hnone : filter positive_mean mean_times = [] ↔
                  Forall (λ item, ¬ positive_mean item) mean_times).
  { split.
    - intros Hnil. apply Forall_forall. intros item Hin Hpos.
      assert (Hf : item ∈ filter positive_mean mean_times)
        by (by apply list_elem_of_filter).
      rewrite Hnil in Hf. by apply elem_of_nil in Hf.
    - apply filter_none. }
  exists out. split; [done|].
  destruct out as [perf_df headline|].
  - destruct Hspec as (Hperm & _ & ->).
    assert (Hne : perf_df ≠ []).
    { unfold bottleneck_analysis in Hout.
      destruct (performance_data mean_times) as [|r rows] eqn:Hdata; [done|].
      intros ->. by apply Permutation_nil_cons in Hperm. }
    split; [split; [done|]|].
    + intros Hall%Hnone. rewrite Hall in Hlen.
      apply Permutation_length in Hperm. rewrite Hlen in Hperm.
      by destruct perf_df.
    + intros ? ? [= <- <-]. split_and!.
      * by rewrite Hperm.
      * by rewrite length_take, Nat.min_comm.
      * by destruct perf_df.
  - split; [|done]. split; [intros _|done].
    apply Hnone. rewrite Hspec in Hlen. by destruct (filter positive_mean mean_times).
Qed.

(** X12. Every headline transition has a time at least as large as that of
    every row of the table outside the headline. *)
Theorem headline_dominates (mean_times : list ((string * string) * TimeInfo))
    (perf_df headline : list PerfRow) (r s : PerfRow) :
  bottleneck_analysis mean_times = Some (Ranked perf_df headline) →
  r ∈ headline →
  s ∈ drop 5 perf_df →
  (Avg_Time_hours s <= Avg_Time_hours r)%Q.
Proof.
  intros Hout Hr Hs.
  destruct (bottleneck_analysis_spec mean_times) as (out & Hout' & Hspec).
  rewrite Hout in Hout'. injection Hout' as <-.
  destruct Hspec as (_ & Hsorted & ->).
  rewrite <- (take_drop 5 perf_df) in Hsorted.
  by eapply (StronglySorted_app_1_elem_of _ _ _ r s) in Hsorted.
Qed.

(** X13. No row of the bottleneck table shows a negative time. *)
Theorem bottleneck_hours_nonneg (mean_times : list ((string * string) * TimeInfo))
    (r : PerfRow) :
  r ∈ performance_data mean_times → (0 <= Avg_Time_hours r)%Q.
Proof.
  intros (item & x & _ & _ & Hpos & _ & ->)%elem_of_performance_data.
  apply round2_nonneg. apply Qle_shift_div_l; [by vm_compute|]. lra.
Qed.

Lemma bottleneck_hours_nonneg_witness :
  let r := {| From_ := "e"; To := "f"; Avg_Time_hours := (2 # 25)%Q |} in
  r ∈ performance_data scenario4 ∧ (0 <= Avg_Time_hours r)%Q.
Proof.
  intros r.
  assert (H : r ∈ performance_data scenario4) by (apply list_elem_of_In; left; reflexivity).
  split; [exact H|]. exact (bottleneck_hours_nonneg scenario4 r H).
Defined.

Lemma headline_dominates_witness :
  let row a b h := {| From_ := a; To := b; Avg_Time_hours := h |} in
  let perf_df := [ row "b" "c" 6%Q; row "d" "e" 5%Q; row "f" "g" 4%Q;
                   row "e" "f" 3%Q; row "c" "d" 2%Q; row "a" "b" 1%Q ] in
  bottleneck_analysis six_times = Some (Ranked perf_df (take 5 perf_df)) ∧
  row "c" "d" 2%Q ∈ take 5 perf_df ∧
  row "a" "b" 1%Q ∈ drop 5 perf_df ∧
  (Avg_Time_hours (row "a" "b" 1%Q) <= Avg_Time_hours (row "c" "d" 2%Q))%Q.
Proof.
  intros row perf_df.
  assert (H1 : bottleneck_analysis six_times = Some (Ranked perf_df (take 5 perf_df)))
    by (by vm_compute).
  assert (H2 : row "c" "d" 2%Q ∈ take 5 perf_df)
    by (apply list_elem_of_In; do 4 right; left; reflexivity).
  assert (H3 : row "a" "b" 1%Q ∈ drop 5 perf_df)
    by (apply list_elem_of_In; left; reflexivity).
  split; [exact H1|]. split; [exact H2|]. split; [exact H3|].
  exact (headline_dominates six_times perf_df _ _ _ H1 H2 H3).
Defined.

(** ** Variant table *)

(** X14. The variant table of line 172 holds the rows of the variant
    statistics rearranged in non-increasing order of count; the sort raises
    exactly when there is no variant at all. *)
Theorem variants_df_sorted (variants : list (list string * list Trace)) :
  (variants_df (variant_stats variants) = None ↔ variants = []) ∧
  (variants ≠ [] →
   ∃ df, variants_df (variant_stats variants) = Some df ∧
         df ≡ₚ variant_stats variants ∧
         StronglySorted (λ r s, Variant_Count s ≤ Variant_Count r) df).
Proof.
  unfold variants_df.
  pose proof (sort_values_desc_spec (λ r, Qnat (Variant_Count r)) (variant_stats variants))
    as H.
  destruct (sort_values_desc _ (variant_stats variants)) as [df|] eqn:Hsort.
  - destruct H as [Hperm Hsorted].
    assert (Hne : variants ≠ []).
    { intros ->. by vm_compute in Hsort. }
    split; [split; [done|by intros ?]|]. intros _. exists df. split_and!; [done..|].
    eapply StronglySorted_impl; [|exact Hsorted].
    cbn beta. intros r s. unfold Qnat. rewrite <- Zle_Qle. lia.
  - unfold variant_stats in H. apply fmap_nil_inv in H. by split.
Qed.

Lemma variants_df_sorted_witness :
  let variants := pm4py.get_variants_as_tuples (scenario1 0) in
  variants ≠ [] ∧
  ∃ df, variants_df (variant_stats variants) = Some df ∧
        df ≡ₚ variant_stats variants ∧
        StronglySorted (λ r s, Variant_Count s ≤ Variant_Count r) df.
Proof.
  intros variants.
  assert (H : variants ≠ []) by (by vm_compute).
  split; [exact H|]. exact (proj2 (variants_df_sorted variants) H).
Defined.

Lemma head_last_sorted (evs : list Event) first final :
  StronglySorted (λ e f, (ts_of e ≤ ts_of f)%Z) evs →
  head evs = Some first → last evs = Some final →
  (ts_of first ≤ ts_of final)%Z.
Proof.
  intros Hs Hh Hl. destruct evs as [|e evs]; [done|]. injection Hh as ->.
  apply StronglySorted_inv in Hs as [_ Hall].
  destruct evs as [|e' evs]; [injection Hl as ->; lia|].
  rewrite last_cons_cons in Hl. apply last_Some_elem_of in Hl.
  by eapply Forall_forall in Hall.
Qed.

Lemma trace_span_nonneg tr :
  StronglySorted (λ e f, (ts_of e ≤ ts_of f)%Z) (events tr) → (0 <= trace_span tr)%Q.
Proof.
  intros Hs. unfold trace_span.
  assert (Hs' : StronglySorted (λ e f, (ts_of e ≤ ts_of f)%Z) (stamped_events tr)).
  { unfold stamped_events. eapply StronglySorted_filter_impl; [|exact Hs]. done. }
  destruct (head (stamped_events tr)) as [first|] eqn:Hh; [|done].
  destruct (last (stamped_events tr)) as [final|] eqn:Hl; [|done].
  apply total_seconds_nonneg. pose proof (head_last_sorted _ _ _ Hs' Hh Hl). lia.
Qed.

(** X15. The average duration of a variant is never negative when the
    events of each of its traces are stored in non-decreasing order of
    timestamp, as the trace builder stores them; the variant loop itself does
    not sort. *)
Theorem variant_avg_duration_nonneg (traces : list Trace) :
  Forall (λ tr, StronglySorted (λ e f, (ts_of e ≤ ts_of f)%Z) (events tr)) traces →
  (0 <= variant_avg_duration traces)%Q.
Proof.
  intros Hall. unfold variant_avg_duration.
  rewrite variant_durations_fold, app_nil_l.
  destruct (trace_span <$> filter qualifies traces) as [|d ds] eqn:Hspans; [done|].
  apply mean_lower; [done|]. rewrite <- Hspans.
  apply Forall_fmap, Forall_forall. intros tr [_ Hin]%list_elem_of_filter.
  apply trace_span_nonneg. by eapply Forall_forall in Hall.
Qed.

Lemma variant_avg_duration_nonneg_witness :
  Forall (λ tr, StronglySorted (λ e f, (ts_of e ≤ ts_of f)%Z) (events tr))
         [plain_trace; arrow_trace] ∧
  (0 <= variant_avg_duration [plain_trace; arrow_trace])%Q.
Proof.
  assert (H : Forall (λ tr, StronglySorted (λ e f, (ts_of e ≤ ts_of f)%Z) (events tr))
                     [plain_trace; arrow_trace]).
  { repeat constructor; by vm_compute. }
  split; [exact H|]. exact (variant_avg_duration_nonneg _ H).
Defined.

(** ** Trace builder *)

Lemma trace_builder_NoDup df : NoDup (case_name <$> trace_builder df).
Proof.
  unfold trace_builder.
  destruct (to_event_log_fold
              (pm4py.filter_case_size (pm4py.format_dataframe df) 2 None) [])
    as (Hnd & _). apply Hnd. constructor.
Qed.

(** X17. Every case of the data frame with at least 2 rows has exactly one
    trace in the log the trace builder returns, and that trace has one event
    per row of the case: no qualifying case is lost, split or shortened. *)
Theorem trace_builder_keeps_cases (df : DataFrame) (c : string) :
  2 ≤ case_size df c →
  ∃ tr, tr ∈ trace_builder df ∧ case_name tr = c ∧
        length (events tr) = case_size df c ∧
        ∀ tr', tr' ∈ trace_builder df → case_name tr' = c → tr' = tr.
Proof.
  intros Hge.
  pose proof (proj2 (trace_builder_case_names df c) Hge) as Hc.
  apply list_elem_of_fmap in Hc as (tr & -> & Hin).
  exists tr. split_and!; [done..| |].
  - pose proof Hin as [_ Hev]%elem_of_to_event_log.
    rewrite Hev, length_fmap, filter_case_size_2. unfold pm4py.format_dataframe.
    set (sorted := stable_sort row_leb df).
    assert (Hsize : ∀ c, case_size sorted c = case_size df c).
    { intros c'. apply case_size_perm, stable_sort_perm. }
    rewrite list_filter_filter.
    transitivity (case_size sorted (case_name tr)); [|apply Hsize].
    unfold case_size. f_equal. apply list_filter_iff.
    intros r. split; [tauto|]. intros Hr. split; [done|].
    rewrite Hr. fold (case_size sorted (case_name tr)). by rewrite Hsize.
  - intros tr' [i Hi]%list_elem_of_lookup Heq.
    apply list_elem_of_lookup in Hin as [j Hj].
    assert (i = j) as ->.
    { eapply NoDup_lookup; [apply trace_builder_NoDup| |].
      - rewrite list_lookup_fmap, Hi. reflexivity.
      - rewrite list_lookup_fmap, Hj. simpl. by rewrite Heq. }
    congruence.
Qed.

Lemma trace_builder_keeps_cases_witness :
  2 ≤ case_size sample_frame "2" ∧
  ∃ tr, tr ∈ trace_builder sample_frame ∧ case_name tr = "2" ∧
        length (events tr) = case_size sample_frame "2" ∧
        ∀ tr', tr' ∈ trace_builder sample_frame → case_name tr' = "2" → tr' = tr.
Proof.
  assert (H : 2 ≤ case_size sample_frame "2") by (vm_compute; lia).
  split; [exact H|]. exact (trace_builder_keeps_cases sample_frame "2" H).
Defined.

Lemma trace_builder_sorted df tr :
  tr ∈ trace_builder df →
  StronglySorted (λ e f, (ts_of e ≤ ts_of f)%Z) (events tr).
Proof.
  intros [_ Hev]%elem_of_to_event_log. rewrite Hev, filter_case_size_2.
  rewrite list_filter_filter.
  eapply StronglySorted_fmap;
    [|eapply StronglySorted_filter_impl;
      [|apply (stable_sort_sorted row_leb); [apply row_leb_total|apply row_leb_trans]]].
  - intros r s Hrs. exact Hrs.
  - cbn beta. intros r s [Hr _] [Hs _]. apply row_leb_same_case. congruence.
Qed.

(** ** Case durations after the trace builder *)

Lemma case_duration_built df tr :
  tr ∈ trace_builder df →
  ∃ d, case_statistics.case_duration tr = Some d ∧ (0 <= d)%Q.
Proof.
  intros Hin.
  pose proof (trace_builder_sorted df tr Hin) as Hs.
  pose proof (trace_builder_timestamped df) as Hts.
  eapply Forall_forall in Hts; [|exact Hin].
  pose proof (trace_builder_events_nonempty df tr Hin) as Hne.
  unfold case_statistics.case_duration.
  destruct (head (events tr)) as [first|] eqn:Hh;
    [|by apply head_None in Hh].
  destruct (last (events tr)) as [final|] eqn:Hl;
    [|by apply last_None in Hl].
  assert (Hf : is_Some (time_timestamp first)).
  { eapply Forall_forall in Hts; [exact Hts|]. by apply head_Some_elem_of. }
  assert (Hg : is_Some (time_timestamp final)).
  { eapply Forall_forall in Hts; [exact Hts|]. by apply last_Some_elem_of. }
  pose proof (head_last_sorted _ _ _ Hs Hh Hl) as Hle.
  destruct Hf as [s Hs']. destruct Hg as [e He]. unfold ts_of in Hle.
  rewrite Hs', He in Hle. simpl in Hle.
  simpl. rewrite Hs'. simpl. rewrite He. simpl.
  eexists. split; [done|]. apply total_seconds_nonneg. lia.
Qed.

(** X18. Run on the log the trace builder returns, the case-duration
    analysis never fails. When some case has at least 2 rows the three
    metrics are numbers of hours with 0 <= minimum <= average <= maximum;
    when every case is smaller the average shows 0 hours and the minimum and
    the maximum show "N/A". *)
Theorem case_metrics_after_trace_builder (df : DataFrame) :
  ∃ metrics,
    case_duration_analyzer (trace_builder df) = Some metrics ∧
    ((∃ c, 2 ≤ case_size df c) →
       ∃ avg lo hi,
         metrics = {| avg_case_duration := Hours avg;
                      min_case_duration := Hours lo;
                      max_case_duration := Hours hi |} ∧
         (0 <= lo)%Q ∧ (lo <= avg)%Q ∧ (avg <= hi)%Q) ∧
    ((∀ c, case_size df c < 2) →
       metrics = {| avg_case_duration := Hours 0;
                    min_case_duration := NotAvailable;
                    max_case_duration := NotAvailable |}).
Proof.
  set (log := trace_builder df).
  set (traces := filter (λ tr, events tr ≠ []) log).
  assert (Hall : Forall (λ tr, ∃ d, case_statistics.case_duration tr = Some d ∧ (0 <= d)%Q)
                        traces).
  { apply Forall_forall. intros tr [_ Hin]%list_elem_of_filter.
    by apply (case_duration_built df). }
  assert (Hkeep : traces = log).
  { apply filter_all, Forall_forall. intros tr. apply trace_builder_events_nonempty. }
  destruct (mapM case_statistics.case_duration traces) as [ds|] eqn:Hds.
  2:{ exfalso. apply eq_None_not_Some in Hds. apply Hds, mapM_is_Some.
      eapply Forall_impl; [exact Hall|]. intros tr (d & Hd & _). by exists d. }
  apply mapM_Some in Hds.
  assert (Hnonneg : Forall (λ d, (0 <= d)%Q) ds).
  { clear Hkeep. induction Hds as [|tr d traces' ds' Hd _ IH]; [constructor|].
    apply Forall_cons in Hall as [(d' & Hd' & Hpos) Hall].
    constructor; [|by apply IH]. rewrite Hd in Hd'. by injection Hd' as ->. }
  pose proof (stable_sort_perm Qle_bool ds) as Hperm.
  exists (case_duration_metrics (stable_sort Qle_bool ds)). split.
  { unfold case_duration_analyzer, case_statistics.get_all_case_durations.
    fold log. fold traces.
    destruct (mapM case_statistics.case_duration traces) as [ds'|] eqn:Hds'.
    - apply mapM_Some in Hds'. simpl.
      assert (ds' = ds) as ->; [|done].
      clear -Hds Hds'. revert ds' Hds'.
      induction Hds as [|tr d traces' ds Hd _ IH]; intros ds' Hds'.
      + by apply Forall2_nil_inv_l in Hds'.
      + apply Forall2_cons_inv_l in Hds' as (d' & ds'' & Hd' & Hrest & ->).
        rewrite Hd in Hd'. injection Hd' as ->. f_equal. by apply IH.
    - exfalso. apply eq_None_not_Some in Hds'. apply Hds', mapM_is_Some.
      eapply Forall_impl; [exact Hall|]. intros tr (d & Hd & _). by exists d. }
  split.
  - intros [c Hc]. apply trace_builder_case_names, list_elem_of_fmap in Hc as (tr & _ & Hin).
    assert (Hne : stable_sort Qle_bool ds ≠ []).
    { intros Hnil. rewrite Hnil in Hperm. apply Permutation_nil_l in Hperm. subst ds.
      apply Forall2_nil_inv_r in Hds. fold log in Hin. rewrite <- Hkeep, Hds in Hin.
      by apply elem_of_nil in Hin. }
    destruct (displayed_min_avg_max _ Hne) as [H1 H2].
    destruct (stable_sort Qle_bool ds) as [|d0 ds0] eqn:Hsorted; [done|].
    do 3 eexists. split; [reflexivity|]. split_and!; [|done..].
    apply round2_nonneg. apply Qle_shift_div_l; [by vm_compute|]. rewrite Qmult_0_l.
    apply Qmin_list_glb; [done|]. by rewrite Hperm.
  - intros Hsmall.
    assert (Hlog : log = []).
    { destruct log as [|tr l] eqn:Hl; [done|].
      assert (Hc : case_name tr ∈ case_name <$> trace_builder df).
      { fold log. rewrite Hl. left. }
      apply trace_builder_case_names in Hc. specialize (Hsmall (case_name tr)). lia. }
    rewrite <- Hkeep in Hlog. rewrite Hlog in Hds. apply Forall2_nil_inv_l in Hds.
    by subst ds.
Qed.

Lemma case_metrics_after_trace_builder_witness :
  (∃ c, 2 ≤ case_size sample_frame c) ∧
  ∃ metrics avg lo hi,
    case_duration_analyzer (trace_builder sample_frame) = Some metrics ∧
    metrics = {| avg_case_duration := Hours avg;
                 min_case_duration := Hours lo;
                 max_case_duration := Hours hi |} ∧
    (0 <= lo)%Q ∧ (lo <= avg)%Q ∧ (avg <= hi)%Q.
Proof.
  assert (H : ∃ c, 2 ≤ case_size sample_frame c) by (exists "2"; vm_compute; lia).
  split; [exact H|].
  destruct (case_metrics_after_trace_builder sample_frame) as (metrics & Hrun & Hsome & _).
  destruct (Hsome H) as (avg & lo & hi & Hm).
  exists metrics, avg, lo, hi. split; [exact Hrun|]. exact Hm.
Defined.

(** ** Bottleneck noise *)

(** X19. Entries without a positive numeric mean have no influence on the
    bottleneck section: removing them from the mapping changes neither the
    table nor the headline nor the warning. *)
Theorem bottleneck_ignores_noise (mean_times : list ((string * string) * TimeInfo)) :
  bottleneck_analysis (filter positive_mean mean_times) = bottleneck_analysis mean_times.
Proof.
  unfold bottleneck_analysis.
  assert (Hdata : performance_data (filter positive_mean mean_times) =
                  performance_data mean_times).
  { unfold performance_data. rewrite !performance_data_fold, !app_nil_l.
    by rewrite list_filter_filter_r. }
  by rewrite Hdata.
Qed.

(** ** Stored order of events *)

Lemma time_sorted_unique (s1 s2 : list Event) :
  StronglySorted (λ e f, (ts_of e ≤ ts_of f)%Z) s1 →
  StronglySorted (λ e f, (ts_of e ≤ ts_of f)%Z) s2 →
  s1 ≡ₚ s2 → NoDup (ts_of <$> s1) → s1 = s2.
Proof.
  revert s2. induction s1 as [|x s1 IH]; intros s2 H1 H2 Hperm Hnd.
  - by apply Permutation_nil_l in Hperm.
  - destruct s2 as [|y s2]; [by apply Permutation_nil_r in Hperm|].
    apply StronglySorted_inv in H1 as [H1 Hx]. apply StronglySorted_inv in H2 as [H2 Hy].
    rewrite fmap_cons in Hnd. apply NoDup_cons in Hnd as [Hnotin Hnd].
    assert (x = y) as ->.
    { assert (Hxin : x ∈ y :: s2) by (rewrite <- Hperm; left).
      assert (Hyin : y ∈ x :: s1) by (rewrite Hperm; left).
      apply elem_of_cons in Hxin as [->|Hxin]; [done|].
      apply elem_of_cons in Hyin as [->|Hyin]; [done|].
      eapply Forall_forall in Hx; [|exact Hyin].
      eapply Forall_forall in Hy; [|exact Hxin].
      destruct Hnotin. replace (ts_of x) with (ts_of y) by lia.
      by apply list_elem_of_fmap_2. }
    f_equal. apply IH; [done..| |done]. by apply Permutation_cons_inv in Hperm.
Qed.

Lemma in_time_order_perm evs evs' :
  evs ≡ₚ evs' → NoDup (ts_of <$> evs) → in_time_order evs = in_time_order evs'.
Proof.
  intros Hperm Hnd. apply time_sorted_unique; [apply in_time_order_sorted..| |].
  - unfold in_time_order. by rewrite !stable_sort_perm.
  - unfold in_time_order. by rewrite stable_sort_perm.
Qed.

Lemma sorted_by_timestamp_perm evs evs' :
  evs ≡ₚ evs' → NoDup (ts_of <$> evs) →
  sorted_by_timestamp evs = sorted_by_timestamp evs'.
Proof.
  intros Hperm Hnd. unfold sorted_by_timestamp.
  fold (in_time_order evs) (in_time_order evs').
  rewrite (in_time_order_perm evs evs') by done.
  destruct (mapM time_timestamp evs) as [ts|] eqn:H1;
    destruct (mapM time_timestamp evs') as [ts'|] eqn:H2; try done; exfalso.
  - apply eq_None_not_Some in H2. apply H2, mapM_is_Some. rewrite <- Hperm.
    apply mapM_is_Some. by eexists.
  - apply eq_None_not_Some in H1. apply H1, mapM_is_Some. rewrite Hperm.
    apply mapM_is_Some. by eexists.
Qed.

(** X20. The timing dictionary does not depend on the order in which the
    events of a trace are stored, as long as the timestamps within each
    trace are distinct: two logs whose traces hold the same events in any
    order give the same result, be it a dictionary or the missing-key
    error. *)
Theorem activity_timing_order_independent (log log' : EventLog) :
  Forall2 (λ tr tr', events tr ≡ₚ events tr' ∧ NoDup (ts_of <$> events tr)) log log' →
  activity_timing log = activity_timing log'.
Proof.
  intros H. unfold activity_timing. generalize (∅ : gmap string TimingEntry).
  induction H as [|tr tr' log log' [Hperm Hnd] _ IH]; intros m; [done|].
  cbn [for_each].
  assert (Htr : timing_trace m tr = timing_trace m tr').
  { unfold timing_trace. by rewrite (sorted_by_timestamp_perm _ _ Hperm Hnd). }
  rewrite Htr. destruct (timing_trace m tr') as [m1|]; [|done]. simpl. apply IH.
Qed.

Lemma activity_timing_order_independent_witness :
  let stored := [ {| case_name := "A";
                     events := [ {| concept_name := "y"; time_timestamp := Some (60 * second)%Z |};
                                 {| concept_name := "x"; time_timestamp := Some 0%Z |} ] |} ] in
  let ordered := [ {| case_name := "A";
                      events := [ {| concept_name := "x"; time_timestamp := Some 0%Z |};
                                  {| concept_name := "y"; time_timestamp := Some (60 * second)%Z |} ] |} ] in
  Forall2 (λ tr tr', events tr ≡ₚ events tr' ∧ NoDup (ts_of <$> events tr)) stored ordered ∧
  activity_timing stored = activity_timing ordered.
Proof.
  intros stored ordered.
  assert (H : Forall2 (λ tr tr', events tr ≡ₚ events tr' ∧ NoDup (ts_of <$> events tr))
                stored ordered).
  { constructor; [|constructor]. split.
    - apply Permutation_swap.
    - cbn. apply NoDup_cons. split; [|apply NoDup_singleton].
      intros Heq%list_elem_of_singleton. by vm_compute in Heq. }
  split; [exact H|]. exact (activity_timing_order_independent stored ordered H).
Defined.

(** ** Distinct labels *)

(** X21. Two non-empty variants without the arrow character in their
    labels get the same entry in the ['Variant'] column only when they are
    the same variant. *)
Theorem variant_labels_distinct (key1 key2 : list string) :
  key1 ≠ [] → key2 ≠ [] →
  Forall (λ s, has_arrow s = false) key1 →
  Forall (λ s, has_arrow s = false) key2 →
  String.concat arrow key1 = String.concat arrow key2 →
  key1 = key2.
Proof.
  intros Hne1 Hne2 H1 H2 Heq.
  destruct key1 as [|l1 key1]; [done|]. destruct key2 as [|l2 key2]; [done|].
  pose proof (split_from_concat key1 l1 EmptyString H1) as E1.
  pose proof (split_from_concat key2 l2 EmptyString H2) as E2.
  rewrite Heq, E2 in E1. by rewrite !string_app_nil_l in E1.
Qed.

Lemma variant_labels_distinct_witness :
  ["a"; "b"] ≠ [] ∧ ["a"; "b"] ≠ [] ∧
  Forall (λ s, has_arrow s = false) ["a"; "b"] ∧
  Forall (λ s, has_arrow s = false) ["a"; "b"] ∧
  String.concat arrow ["a"; "b"] = String.concat arrow ["a"; "b"] ∧
  ["a"; "b"] = ["a"; "b"].
Proof.
  assert (H1 : ["a"; "b"] ≠ []) by discriminate.
  assert (H2 : Forall (λ s, has_arrow s = false) ["a"; "b"]) by (repeat constructor).
  assert (H3 : String.concat arrow ["a"; "b"] = String.concat arrow ["a"; "b"])
    by reflexivity.
  split; [exact H1|]. split; [exact H1|]. split; [exact H2|]. split; [exact H2|].
  split; [exact H3|]. exact (variant_labels_distinct _ _ H1 H1 H2 H2 H3).
Defined.
